(** * Fuzzy matching core of the invoice OCR reviewer

    Shallow embedding of [levenshteinDistance], [similarity] and
    [findBestMatch] (src/unnamed/part_000) and proofs of their contract.

    Modelling choices:
    - a JavaScript string is its sequence of UTF-16 code units, [list Z];
      [s[i]] is [nth_error], [s.length] is [length];
    - the distance matrix is built row by row, each row a [list nat],
      exactly in the order of the two nested loops of the source;
    - JavaScript numbers used as scores are modelled by rationals [Q]:
      the scores are quotients of small naturals, which the double
      arithmetic of the source computes with monotone rounding;
    - [String.prototype.toLowerCase] and the truthiness of a candidate of
      the generic type [T] are parameters of the selector. *)

From Stdlib Require Import Ascii String.
From Stdlib Require Import List Arith Lia ZArith QArith Lqa Bool.
From Stdlib Require DecimalN.
Import ListNotations.
Open Scope nat_scope.

Definition str := list Z.

(** Code units of an ASCII string literal, for concrete inputs. *)
Definition js (s : string) : str :=
  map (fun c => Z.of_nat (nat_of_ascii c)) (list_ascii_of_string s).

(** ** levenshteinDistance *)

(** The inner loop [for (let j = 1; j <= an; ++j)] of row [i]: [bc] is
    [b[i - 1]], [prev] is [matrix[i - 1]] from column [j - 1] on (the
    diagonal and the cell above), [left] is [matrix[i][j - 1]]. *)
Fixpoint fill (bc : Z) (a : str) (prev : list nat) (left : nat) : list nat :=
  match a, prev with
  | x :: a', diag :: ((up :: _) as prev') =>
      let v := if Z.eqb bc x then diag
               else Nat.min (diag + 1) (Nat.min (left + 1) (up + 1)) in
      v :: fill bc a' prev' v
  | _, _ => []
  end.

(** The outer loop [for (let i = 1; i <= bn; ++i)]: [bs] are the characters
    [b[i - 1], b[i], ...] still to process, [prev] is [matrix[i - 1]];
    row [i] starts with [row[0] = i]. *)
Fixpoint build_rows (a : str) (bs : str) (prev : list nat) (i : nat)
  : list (list nat) :=
  match bs with
  | [] => []
  | y :: bs' =>
      let row := S i :: fill y a prev (S i) in
      row :: build_rows a bs' row (S i)
  end.

Definition levenshteinDistance (a b : str) : nat :=
  let an := length a in
  let bn := length b in
  if Nat.eqb an 0 then bn
  else if Nat.eqb bn 0 then an
  else
    let firstRow := seq 0 (S an) in
    let matrix := firstRow :: build_rows a b firstRow 0 in
    nth an (nth bn matrix []) 0.

Example lev_empty : levenshteinDistance (js "") (js "hello") = 5
                    /\ levenshteinDistance (js "hello") (js "") = 5.
Proof. split; reflexivity. Qed.
Example lev_cart : levenshteinDistance (js "cat") (js "cart") = 1.
Proof. reflexivity. Qed.

(** ** similarity and findBestMatch *)

(** [Math.max], the guard against [maxLen === 0], and [1 - distance / maxLen]. *)
Definition similarity (distance len1 len2 : nat) : Q :=
  let maxLen := Nat.max len1 len2 in
  if Nat.eqb maxLen 0 then 1%Q
  else (1 - inject_Z (Z.of_nat distance) / inject_Z (Z.of_nat maxLen))%Q.

(** The JavaScript comparison [x > y] on numbers. *)
Definition Qgtb (x y : Q) : bool := if Qlt_le_dec y x then true else false.

Section Selector.

(** The generic candidate type [T] of [findBestMatch<T>], the truthiness of
    its values (the test [bestMatch && ...]) and [toLowerCase]. *)
Context {T : Type}.
Variable truthy : T -> bool.
Variable toLowerCase : str -> str.

(** The body of [for (const candidate of candidates)] up to [score], for a
    distance function [dist]; the source calls [levenshteinDistance]. *)
Definition candidateScore (dist : str -> str -> nat) (targetLower : str)
    (keyExtractor : T -> str) (candidate : T) : Q :=
  let candidateText := keyExtractor candidate in
  let candidateLower := toLowerCase candidateText in
  let distance := dist targetLower candidateLower in
  similarity distance (length targetLower) (length candidateLower).

(** One iteration of the loop on the state [(bestMatch, highScore)]. *)
Definition scan_step (dist : str -> str -> nat) (targetLower : str)
    (keyExtractor : T -> str) (st : option T * Q) (candidate : T)
  : option T * Q :=
  let '(bestMatch, highScore) := st in
  let score := candidateScore dist targetLower keyExtractor candidate in
  if Qgtb score highScore then (Some candidate, score)
  else (bestMatch, highScore).

(** [findBestMatch] with the distance function as a parameter. *)
Definition findBestMatchWith (dist : str -> str -> nat) (target : str)
    (candidates : list T) (keyExtractor : T -> str) : option (T * Q) :=
  if Nat.eqb (length target) 0 || Nat.eqb (length candidates) 0 then None
  else
    let targetLower := toLowerCase target in
    let '(bestMatch, highScore) :=
      fold_left (scan_step dist targetLower keyExtractor) candidates
        (None, (-1)%Q) in
    match bestMatch with
    | Some bm => if truthy bm && Qgtb highScore (1 # 2)
                 then Some (bm, highScore) else None
    | None => None
    end.

Definition findBestMatch : str -> list T -> (T -> str) -> option (T * Q) :=
  findBestMatchWith levenshteinDistance.

End Selector.

(** ** Concrete instances: ASCII lower-casing, product records *)

Definition asciiLower (c : Z) : Z :=
  if (65 <=? c)%Z && (c <=? 90)%Z then (c + 32)%Z else c.

Definition asciiToLowerCase (s : str) : str := map asciiLower s.

Record Product := { code : str; name : str }.

Definition products : list Product :=
  [ {| code := js "P001"; name := js "Delicious Apples" |};
    {| code := js "P002"; name := js "Fresh Bananas" |} ].

(** A record is always truthy in JavaScript. *)
Definition productTruthy (_ : Product) : bool := true.

Definition bestProduct (query : string) (cands : list Product)
  : option (str * Q) :=
  option_map (fun '(p, s) => (code p, s))
    (findBestMatch productTruthy asciiToLowerCase (js query) cands name).

Definition matchedWith (r : option (str * Q)) (c : string) (score : Q) : bool :=
  match r with
  | Some (c', s) => (if list_eq_dec Z.eq_dec c' (js c) then true else false)
                    && Qeq_bool s score
  | None => false
  end.

Example scenario6 : bestProduct "Random String" products = None.
Proof. vm_compute. reflexivity. Qed.
Example scenario8 :
  matchedWith (bestProduct "Delicious Apples"
    [ {| code := js "P003"; name := js "Very Delicious Apples" |};
      {| code := js "P001"; name := js "Delicious Apples" |} ])
    "P001" 1 = true.
Proof. vm_compute. reflexivity. Qed.

(** ** Edit scripts *)

(** One single-character edit, anywhere in the string, unit cost. *)
Inductive edit_step : str -> str -> Prop :=
| Insert (p q : str) (c : Z) : edit_step (p ++ q) (p ++ c :: q)
| Delete (p q : str) (c : Z) : edit_step (p ++ c :: q) (p ++ q)
| Substitute (p q : str) (c d : Z) : edit_step (p ++ c :: q) (p ++ d :: q).

(** [edits n s t]: [s] is transformed into [t] by a sequence of [n] edits. *)
Inductive edits : nat -> str -> str -> Prop :=
| edits_refl (s : str) : edits 0 s s
| edits_cons (n : nat) (s s' t : str) :
    edit_step s s' -> edits n s' t -> edits (S n) s t.

(** Alignments of two strings, read from the front, with their cost. *)
Inductive align : str -> str -> nat -> Prop :=
| al_nil : align [] [] 0
| al_pair (x y : Z) (a b : str) (k : nat) :
    align a b k -> align (x :: a) (y :: b) (k + if Z.eqb x y then 0 else 1)
| al_del (x : Z) (a b : str) (k : nat) : align a b k -> align (x :: a) b (S k)
| al_ins (y : Z) (a b : str) (k : nat) : align a b k -> align a (y :: b) (S k).

(** The edit distance by recursion on the fronts of the strings. *)
Fixpoint ed (a b : str) {struct a} : nat :=
  match a with
  | [] => length b
  | x :: a' =>
      (fix ed_x (b : str) : nat :=
         match b with
         | [] => length a
         | y :: b' =>
             Nat.min (ed a' b' + if Z.eqb x y then 0 else 1)
                     (Nat.min (S (ed a' b)) (S (ed_x b')))
         end) b
  end.

(** The distance of the matrix cell [(i, j)]: prefixes are read from their
    ends. *)
Definition E (a b : str) : nat := ed (rev a) (rev b).

(** A boolean candidate list with a label per value; in JavaScript the
    truthiness of a boolean is the boolean itself. *)
Definition yesNo (b : bool) : str := if b then js "yes" else js "no".

Definition boolTruthy (b : bool) : bool := b.

(** Two catalogue entries with the same name. *)
Definition twins : list Product :=
  [ {| code := js "P010"; name := js "Green Apples" |};
    {| code := js "P011"; name := js "green apples" |} ].

(** A catalogue with an entry whose name is empty. *)
Definition withBlank : list Product :=
  [ {| code := js "P000"; name := [] |};
    {| code := js "P001"; name := js "Delicious Apples" |} ].

(** * The callers of [findBestMatch] *)

(** Further modelling choices for the application code:
    - a [Map<string, V>] is the association list of its entries in insertion
      order, [Map.prototype.get] returns the value of the first entry with
      an equal key (the keys of a [Map] are distinct);
    - an optional property ([string | undefined]) is an [option]; the
      truthiness of a string is its non-emptiness, an object or an array is
      always truthy;
    - numbers that the code only copies are rationals;
    - [Date.now()] is a clock, the value it returns at each call: [clock i]
      is the value returned while the [i]-th element of a list is mapped. *)

(** ** Strings *)

Definition str_eqb (a b : str) : bool :=
  if list_eq_dec Z.eq_dec a b then true else false.

(** JavaScript truthiness of a [string | undefined]. *)
Definition strTruthy (s : option str) : bool :=
  match s with
  | Some (_ :: _) => true
  | _ => false
  end.

(** [s.replace(/-/g, '')]: every ['-'] (code unit 45) removed. *)
Definition stripDashes (s : str) : str :=
  filter (fun c => negb (Z.eqb c 45)) s.

(** The digits of a decimal numeral, as code units ['0'] to ['9']. *)
Fixpoint uint_str (d : Decimal.uint) : str :=
  match d with
  | Decimal.Nil => []
  | Decimal.D0 d => 48%Z :: uint_str d
  | Decimal.D1 d => 49%Z :: uint_str d
  | Decimal.D2 d => 50%Z :: uint_str d
  | Decimal.D3 d => 51%Z :: uint_str d
  | Decimal.D4 d => 52%Z :: uint_str d
  | Decimal.D5 d => 53%Z :: uint_str d
  | Decimal.D6 d => 54%Z :: uint_str d
  | Decimal.D7 d => 55%Z :: uint_str d
  | Decimal.D8 d => 56%Z :: uint_str d
  | Decimal.D9 d => 57%Z :: uint_str d
  end.

(** A non-negative integer in a template literal, [`${n}`]. *)
Definition decimal (n : N) : str := uint_str (N.to_uint n).

(** ** Master data (src/types.ts) *)

Module Master.

Record CatalogProduct := { productCode : str; productName : str }.

Record SupplierInfo :=
  { supplierCode : str; supplierName : str; products : list CatalogProduct }.

(** [MasterDatabase = Map<string, SupplierInfo>], keyed by CUIT. *)
Definition MasterDatabase := list (str * SupplierInfo).

(** [Map.prototype.get]. *)
Fixpoint get {V : Type} (m : list (str * V)) (k : str) : option V :=
  match m with
  | [] => None
  | (k', v) :: m' => if str_eqb k' k then Some v else get m' k
  end.

(** Catalogue entries are objects, always truthy. *)
Definition productTruthy (_ : CatalogProduct) : bool := true.

End Master.

(** ** OCR data and invoice data *)

Module Ocr.

(** An item of the OCR response. *)
Record OcrItem := { description : str; quantity : Q; unitPrice : Q; total : Q }.

End Ocr.

(** The header fields of [InvoiceData], copied through by the mapping. *)
Record InvoiceHeader := {
  invoiceNumber : str;
  invoiceDate : str;
  cuit : option str;
  totalAmount : Q;
  ivaPerception : option Q;
  grossIncomePerception : option Q;
  otherTaxes : option Q;
  supplierName : option str }.

(** The OCR response: the header and [items], which may be absent. *)
Record OcrData := { ocrHeader : InvoiceHeader; ocrItems : option (list Ocr.OcrItem) }.

(** [LineItem]; [matchScore] is present only on items built from the OCR
    response. *)
Record LineItem := {
  id : str;
  ocrDescription : str;
  ocrQuantity : Q;
  ocrUnitPrice : Q;
  productCode : str;
  productName : str;
  quantity : Q;
  unitPrice : Q;
  total : Q;
  matchScore : option Q }.

Record InvoiceData := {
  header : InvoiceHeader;
  identifiedSupplierCuit : option str;
  usePreloadedCatalog : bool;
  items : list LineItem;
  originalItems : option (list LineItem) }.

(** [{ ...item, productCode: c, productName: n }]. *)
Definition withProduct (item : LineItem) (c n : str) : LineItem :=
  {| id := id item; ocrDescription := ocrDescription item;
     ocrQuantity := ocrQuantity item; ocrUnitPrice := ocrUnitPrice item;
     productCode := c; productName := n;
     quantity := quantity item; unitPrice := unitPrice item;
     total := total item; matchScore := matchScore item |}.

(** [{ ...item, matchScore: s }]. *)
Definition withScore (item : LineItem) (s : Q) : LineItem :=
  {| id := id item; ocrDescription := ocrDescription item;
     ocrQuantity := ocrQuantity item; ocrUnitPrice := ocrUnitPrice item;
     productCode := productCode item; productName := productName item;
     quantity := quantity item; unitPrice := unitPrice item;
     total := total item; matchScore := Some s |}.

(** [{ ...d, items: l }]. *)
Definition withItems (d : InvoiceData) (l : list LineItem) : InvoiceData :=
  {| header := header d; identifiedSupplierCuit := identifiedSupplierCuit d;
     usePreloadedCatalog := usePreloadedCatalog d; items := l;
     originalItems := originalItems d |}.

(** The fields of an item other than the chosen product. *)
Definition nonProductFields (it : LineItem) :=
  (id it, ocrDescription it, ocrQuantity it, ocrUnitPrice it,
   quantity it, unitPrice it, total it, matchScore it).

(** ** Mapping an OCR response (src/unnamed/part_003, [processAndMapFile]) *)

Section Mapping.

Variable toLowerCase : str -> str.
Variable clock : nat -> N.

(** [findBestMatch(description, products, p => p.productName)]. *)
Definition matchProduct (products : list Master.CatalogProduct) (description : str)
  : option (Master.CatalogProduct * Q) :=
  findBestMatch Master.productTruthy toLowerCase description products
    Master.productName.

(** The loop over [masterData.entries()] with its [break]: the first key
    whose dash-free form is [normalizedCuit]. *)
Fixpoint findSupplierKey (normalizedCuit : str) (entries : Master.MasterDatabase)
  : option str :=
  match entries with
  | [] => None
  | (keyCuit, _) :: entries' =>
      if str_eqb (stripDashes keyCuit) normalizedCuit then Some keyCuit
      else findSupplierKey normalizedCuit entries'
  end.

(** [identifiedSupplierCuit] from [ocrData.cuit]. *)
Definition identifySupplier (masterData : Master.MasterDatabase) (ocrCuit : option str)
  : option str :=
  let normalizedCuit :=
    stripDashes (match ocrCuit with Some c => c | None => [] end) in
  findSupplierKey normalizedCuit masterData.

(** [identifiedSupplierCuit ? masterData.get(identifiedSupplierCuit) : undefined]. *)
Definition supplierInfoFor (masterData : Master.MasterDatabase)
    (identified : option str) : option Master.SupplierInfo :=
  match identified with
  | Some ((_ :: _) as k) => Master.get masterData k
  | _ => None
  end.

(** The callback of [(ocrData.items || []).map((ocrItem, itemIndex) => ...)]. *)
Definition mapOcrItem (supplierInfo : option Master.SupplierInfo)
    (itemIndex : nat) (ocrItem : Ocr.OcrItem) : LineItem :=
  let defaultItem :=
    {| id := js "item-" ++ decimal (clock itemIndex) ++ js "-"
             ++ decimal (N.of_nat itemIndex);
       ocrDescription := Ocr.description ocrItem;
       ocrQuantity := Ocr.quantity ocrItem;
       ocrUnitPrice := Ocr.unitPrice ocrItem;
       productCode := []; productName := js "N/A";
       quantity := Ocr.quantity ocrItem; unitPrice := Ocr.unitPrice ocrItem;
       total := Ocr.total ocrItem; matchScore := Some 0%Q |} in
  match supplierInfo with
  | Some info =>
      match matchProduct (Master.products info) (Ocr.description ocrItem) with
      | Some (bestMatch, score) =>
          withScore (withProduct defaultItem (Master.productCode bestMatch)
                                             (Master.productName bestMatch)) score
      | None => defaultItem
      end
  | None => defaultItem
  end.

(** [Array.prototype.map] from index [itemIndex] on. *)
Fixpoint mapOcrItemsFrom (supplierInfo : option Master.SupplierInfo)
    (itemIndex : nat) (ocrItems : list Ocr.OcrItem) : list LineItem :=
  match ocrItems with
  | [] => []
  | o :: rest => mapOcrItem supplierInfo itemIndex o
                 :: mapOcrItemsFrom supplierInfo (S itemIndex) rest
  end.

(** The [try] block of [processAndMapFile]: [finalInvoiceData]. *)
Definition mapOcrData (masterData : Master.MasterDatabase) (ocrData : OcrData)
  : InvoiceData :=
  let identified := identifySupplier masterData (cuit (ocrHeader ocrData)) in
  let supplierInfo := supplierInfoFor masterData identified in
  let matchedItems :=
    mapOcrItemsFrom supplierInfo 0
      (match ocrItems ocrData with Some l => l | None => [] end) in
  {| header := ocrHeader ocrData; identifiedSupplierCuit := identified;
     usePreloadedCatalog := false; items := matchedItems; originalItems := None |}.

End Mapping.

(** The id given to the OCR item of index [itemIndex]. *)
Definition ocrItemId (clock : nat -> N) (itemIndex : nat) : str :=
  js "item-" ++ decimal (clock itemIndex) ++ js "-" ++ decimal (N.of_nat itemIndex).

(** ** The review form (src/components/DataForm.tsx) *)

(** [Array.prototype.findIndex]: the index of the first element satisfying
    [f], [-1] if there is none. *)
Fixpoint findIndex {A : Type} (f : A -> bool) (l : list A) : Z :=
  match l with
  | [] => (-1)%Z
  | x :: l' =>
      if f x then 0%Z
      else let r := findIndex f l' in if (r <? 0)%Z then (-1)%Z else (r + 1)%Z
  end.

(** [Array.prototype.filter] with a callback of [(value, index)], from
    [index] on. *)
Fixpoint filterIndexed {A : Type} (f : A -> nat -> bool) (index : nat) (l : list A)
  : list A :=
  match l with
  | [] => []
  | x :: l' => if f x index then x :: filterIndexed f (S index) l'
               else filterIndexed f (S index) l'
  end.

Section Form.

Variable toLowerCase : str -> str.
(** The [masterData] prop of the form. *)
Variable masterData : Master.MasterDatabase.

(** The callback of [prevData.items.map(item => ...)] in
    [handleSupplierChange]. *)
Definition rematchItem (productCandidates : list Master.CatalogProduct)
    (item : LineItem) : LineItem :=
  match matchProduct toLowerCase productCandidates (ocrDescription item) with
  | Some (bestMatch, _) =>
      withProduct item (Master.productCode bestMatch) (Master.productName bestMatch)
  | None => withProduct item [] (js "N/A")
  end.

(** [handleSupplierChange] with [e.target.value = newSupplierCuit], as the
    state update it performs; the early [return] leaves the state as is. *)
Definition handleSupplierChange (newSupplierCuit : str) (prevData : InvoiceData)
  : InvoiceData :=
  match Master.get masterData newSupplierCuit with
  | None => prevData
  | Some newSupplierData =>
      let productCandidates := Master.products newSupplierData in
      let reMatchedItems := map (rematchItem productCandidates) (items prevData) in
      {| header := header prevData;
         identifiedSupplierCuit := Some newSupplierCuit;
         usePreloadedCatalog := false;
         items := reMatchedItems;
         originalItems := originalItems prevData |}
  end.

(** The callback of [supplierInfo.products.map((p, index) => ...)]. *)
Fixpoint preloadFrom (clock : nat -> N) (index : nat)
    (ps : list Master.CatalogProduct) : list LineItem :=
  match ps with
  | [] => []
  | p :: ps' =>
      {| id := js "item-preloaded-" ++ decimal (clock index) ++ js "-"
               ++ decimal (N.of_nat index);
         ocrDescription := []; ocrQuantity := 0; ocrUnitPrice := 0;
         productCode := Master.productCode p; productName := Master.productName p;
         quantity := 0; unitPrice := 0; total := 0; matchScore := None |}
      :: preloadFrom clock (S index) ps'
  end.

Definition getPreloadedItems (clock : nat -> N) (supplierCuit : str)
  : list LineItem :=
  match Master.get masterData supplierCuit with
  | None => []
  | Some supplierInfo => preloadFrom clock 0 (Master.products supplierInfo)
  end.

(** [handlePreloadToggle] with [e.target.checked = usePreloaded]. *)
Definition handlePreloadToggle (clock : nat -> N) (usePreloaded : bool)
    (prevData : InvoiceData) : InvoiceData :=
  match usePreloaded, identifiedSupplierCuit prevData with
  | true, Some ((_ :: _) as k) =>
      let itemsToBackup := items prevData in
      let preloadedItems := getPreloadedItems clock k in
      {| header := header prevData;
         identifiedSupplierCuit := identifiedSupplierCuit prevData;
         usePreloadedCatalog := true;
         items := preloadedItems;
         originalItems := Some itemsToBackup |}
  | _, _ =>
      let itemsToRestore :=
        match originalItems prevData with Some o => o | None => items prevData end in
      {| header := header prevData;
         identifiedSupplierCuit := identifiedSupplierCuit prevData;
         usePreloadedCatalog := false;
         items := itemsToRestore;
         originalItems := None |}
  end.

(** [prevData.identifiedSupplierCuit ? masterData.get(...)?.products : []]. *)
Definition supplierProductsOf (d : InvoiceData) : option (list Master.CatalogProduct) :=
  match identifiedSupplierCuit d with
  | Some ((_ :: _) as k) => option_map Master.products (Master.get masterData k)
  | _ => Some []
  end.

(** [handleProductChange(id, selectedProductName)]. *)
Definition handleProductChange (itemId selectedProductName : str)
    (prevData : InvoiceData) : InvoiceData :=
  let supplierProducts := supplierProductsOf prevData in
  let selectedProduct :=
    match supplierProducts with
    | Some ps => find (fun p => str_eqb (Master.productName p) selectedProductName) ps
    | None => None
    end in
  match selectedProduct with
  | Some p =>
      let newItems :=
        map (fun item => if str_eqb (id item) itemId
                         then withProduct item (Master.productCode p)
                                               (Master.productName p)
                         else item) (items prevData) in
      withItems prevData newItems
  | None => prevData
  end.

(** The item appended by [addNewItem], [now] being [Date.now()]. *)
Definition newManualItem (now : N) : LineItem :=
  {| id := js "item-manual-" ++ decimal now;
     ocrDescription := js "Entrada Manual"; ocrQuantity := 0; ocrUnitPrice := 0;
     productCode := []; productName := [];
     quantity := 1; unitPrice := 0; total := 0; matchScore := None |}.

Definition addNewItem (now : N) (prevData : InvoiceData) : InvoiceData :=
  withItems prevData (items prevData ++ [newManualItem now]).

Definition removeItem (itemId : str) (prevData : InvoiceData) : InvoiceData :=
  withItems prevData
    (filter (fun item => negb (str_eqb (id item) itemId)) (items prevData)).

(** [identifiedSupplier ? identifiedSupplier.products : []] for the
    rendered form. *)
Definition identifiedProducts (formData : InvoiceData) : list Master.CatalogProduct :=
  match identifiedSupplierCuit formData with
  | Some ((_ :: _) as k) =>
      match Master.get masterData k with
      | Some info => Master.products info
      | None => []
      end
  | _ => []
  end.

End Form.

(** [supplierProducts.filter((product, index, self) =>
      index === self.findIndex(p => p.productName === product.productName))]. *)
Definition uniqueByName (self : list Master.CatalogProduct)
  : list Master.CatalogProduct :=
  filterIndexed
    (fun product index =>
       Z.eqb (Z.of_nat index)
         (findIndex (fun p => str_eqb (Master.productName p)
                                      (Master.productName product)) self))
    0 self.

(** ** Batches (src/unnamed/part_013, [processInChunks]) *)

Section Chunks.

Context {T R : Type}.
(** The [processor]; the promises of a chunk are awaited together and
    [Promise.all] keeps their order. *)
Variable processor : T -> R.

(** The loop [for (let i = 0; i < items.length; i += chunkSize)], run for
    at most [fuel] iterations: [None] when it has not ended by then. *)
Fixpoint chunkLoop (fuel : nat) (items : list T) (chunkSize : nat) (i : nat)
    (results : list R) : option (list R) :=
  match fuel with
  | O => None
  | S fuel' =>
      if i <? length items then
        let chunk := firstn chunkSize (skipn i items) in
        let chunkResults := map processor chunk in
        chunkLoop fuel' items chunkSize (i + chunkSize) (results ++ chunkResults)
      else Some results
  end.

Definition processInChunks (fuel : nat) (items : list T) (chunkSize : nat)
  : option (list R) :=
  chunkLoop fuel items chunkSize 0 [].

End Chunks.

(** ** Uploading a batch (src/unnamed/part_003, [handleFilesUpload]) *)


Section Upload.

Context {File : Type}.
Variable fileName : File -> str.
(** [processSingleFile]: the OCR data of a file, or the reason of its
    failure. *)
Variable processSingleFile : File -> OcrData + str.
Variable toLowerCase : str -> str.
(** [Date.now()] while the items of a file are mapped. *)
Variable clock : File -> nat -> N.











End Upload.

(** ** Loading the master data (src/components/MasterUploader.tsx, [parseCSV]) *)

Module Csv.

(** The code units removed by [String.prototype.trim]: WhiteSpace and
    LineTerminator. *)
Definition isTrimmed (c : Z) : bool :=
  existsb (Z.eqb c)
    [9; 10; 11; 12; 13; 32; 160; 5760; 8232; 8233; 8239; 8287; 12288; 65279]%Z
  || ((8192 <=? c) && (c <=? 8202))%Z.

Fixpoint dropWhile (f : Z -> bool) (s : str) : str :=
  match s with
  | [] => []
  | c :: r => if f c then dropWhile f r else s
  end.

(** [s.trim()]. *)
Definition trim (s : str) : str :=
  rev (dropWhile isTrimmed (rev (dropWhile isTrimmed s))).

Definition consHead (c : Z) (l : list str) : list str :=
  match l with
  | x :: l' => (c :: x) :: l'
  | [] => [[c]]
  end.

(** [s.split(sep)] for a separator of one code unit. *)
Fixpoint splitOn (sep : Z) (s : str) : list str :=
  match s with
  | [] => [[]]
  | c :: r => if Z.eqb c sep then [] :: splitOn sep r else consHead c (splitOn sep r)
  end.

(** [s.split(/\r?\n/)]: a separator is a line feed, with the carriage
    return just before it if there is one. *)
Fixpoint splitLines (s : str) : list str :=
  match s with
  | [] => [[]]
  | c :: rest =>
      if Z.eqb c 10 then [] :: splitLines rest
      else match rest with
           | d :: rest' =>
               if Z.eqb c 13 && Z.eqb d 10 then [] :: splitLines rest'
               else consHead c (splitLines rest)
           | [] => [[c]]
           end
  end.

(** A row object [entry]: its properties in creation order. *)
Definition Entry := list (str * option str).

(** [entry[k] = v]: an existing property keeps its place. *)
Fixpoint objSet (e : Entry) (k : str) (v : option str) : Entry :=
  match e with
  | [] => [(k, v)]
  | (k', v') :: e' => if str_eqb k' k then (k', v) :: e' else (k', v') :: objSet e' k v
  end.

(** [entry[k]]; [None] is [undefined]. *)
Fixpoint objGet (e : Entry) (k : str) : option str :=
  match e with
  | [] => None
  | (k', v) :: e' => if str_eqb k' k then v else objGet e' k
  end.

(** [header.forEach((h, i) => entry[h] = values[i]?.trim())], from index
    [i] on. *)
Fixpoint fillEntry (entry : Entry) (header : list str) (values : list str) (i : nat)
  : Entry :=
  match header with
  | [] => entry
  | h :: hs => fillEntry (objSet entry h (option_map trim (nth_error values i)))
                 hs values (S i)
  end.

(** The callback of [rows.slice(1).map(row => ...)]. *)
Definition rowEntry (header : list str) (row : str) : Entry :=
  let values := splitOn 44 row in
  fillEntry [] header values 0.

Record CsvProduct := { productCode : option str; productName : option str }.

Record CsvSupplier :=
  { supplierCode : option str; supplierName : option str; products : list CsvProduct }.

(** The [Map] built by [parseCSV]; its values are read from the rows and
    are [undefined] where a row has too few fields. *)
Definition CsvDatabase := list (str * CsvSupplier).

(** [db.has(k)]. *)
Definition has (db : CsvDatabase) (k : str) : bool :=
  match Master.get db k with Some _ => true | None => false end.

(** [db.set(k, v)]. *)
Fixpoint set (db : CsvDatabase) (k : str) (v : CsvSupplier) : CsvDatabase :=
  match db with
  | [] => [(k, v)]
  | (k', v') :: db' => if str_eqb k' k then (k', v) :: db' else (k', v') :: set db' k v
  end.

(** The supplier object [{ ...v, products: [...v.products, p] }] that
    [push] leaves in the map. *)
Definition withPushed (v : CsvSupplier) (p : CsvProduct) : CsvSupplier :=
  {| supplierCode := supplierCode v; supplierName := supplierName v;
     products := products v ++ [p] |}.

(** [db.get(k)!.products.push(p)]: the array stored in the map is
    extended in place. *)
Fixpoint pushProduct (db : CsvDatabase) (k : str) (p : CsvProduct) : CsvDatabase :=
  match db with
  | [] => []
  | (k', v) :: db' =>
      if str_eqb k' k then (k', withPushed v p) :: db'
      else (k', v) :: pushProduct db' k p
  end.

(** [{ supplierCode: d.CODIGO_PROVEEDOR, supplierName: d.RAZON_SOCIAL,
       products: ps }]. *)
Definition rowSupplier (d : Entry) (ps : list CsvProduct) : CsvSupplier :=
  {| supplierCode := objGet d (js "CODIGO_PROVEEDOR");
     supplierName := objGet d (js "RAZON_SOCIAL");
     products := ps |}.

(** [{ productCode: d.CODIGO_PRODUCTO, productName: d.NOMBRE_PRODUCTO }]. *)
Definition rowProduct (d : Entry) : CsvProduct :=
  {| productCode := objGet d (js "CODIGO_PRODUCTO");
     productName := objGet d (js "NOMBRE_PRODUCTO") |}.

(** The callback of [data.forEach(d => ...)]. *)
Definition dbStep (db : CsvDatabase) (d : Entry) : CsvDatabase :=
  match objGet d (js "CUIT") with
  | Some ((_ :: _) as cuit) =>
      let db1 := if has db cuit then db else set db cuit (rowSupplier d []) in
      pushProduct db1 cuit (rowProduct d)
  | _ => db
  end.

Definition buildDatabase (data : list Entry) : CsvDatabase := fold_left dbStep data [].

(** The three [Error]s thrown by [parseCSV]. *)
Inductive CsvError := EmptyCsv | MissingHeaders | NoValidData.

Inductive ParseResult := Parsed (db : CsvDatabase) | Failed (e : CsvError).

Definition requiredHeaders : list str :=
  map js ["CUIT"; "RAZON_SOCIAL"; "CODIGO_PROVEEDOR"; "CODIGO_PRODUCTO";
          "NOMBRE_PRODUCTO"]%string.

(** [rows]: the lines that are not blank. *)
Definition csvRows (csvText : str) : list str :=
  filter (fun row => negb (str_eqb (trim row) [])) (splitLines csvText).

Definition csvHeader (rows : list str) : list str :=
  map trim (splitOn 44 (nth 0 rows [])).

Definition csvData (rows : list str) : list Entry :=
  map (rowEntry (csvHeader rows)) (skipn 1 rows).

Definition parseCSV (csvText : str) : ParseResult :=
  let rows := csvRows csvText in
  if length rows <? 2 then Failed EmptyCsv
  else
    let header := csvHeader rows in
    if negb (forallb (fun h => existsb (str_eqb h) header) requiredHeaders)
    then Failed MissingHeaders
    else
      let data := csvData rows in
      let db := buildDatabase data in
      if Nat.eqb (length db) 0 then Failed NoValidData else Parsed db.

(** The CUIT of a data row, when it is truthy. *)
Definition rowCuit (d : Entry) : option str :=
  match objGet d (js "CUIT") with
  | Some ((_ :: _) as c) => Some c
  | _ => None
  end.

(** The data rows whose CUIT is [k], in order. *)
Definition rowsOf (data : list Entry) (k : str) : list Entry :=
  filter (fun d => match rowCuit d with Some c => str_eqb c k | None => false end) data.

(** Whether no line contains a line feed or a carriage return. *)
Definition plainLines (lines : list str) : bool :=
  forallb (fun l => negb (existsb (fun c => (c =? 10) || (c =? 13))%Z l)) lines.

(** Lines joined with a separator, to state line-ending facts. *)
Fixpoint joinLines (sep : str) (lines : list str) : str :=
  match lines with
  | [] => []
  | [l] => l
  | l :: ls => l ++ sep ++ joinLines sep ls
  end.

End Csv.

(** A master database and an OCR response for concrete runs. *)
Definition demoMaster : Master.MasterDatabase :=
  [ (js "30-71234567-8",
     {| Master.supplierCode := js "PRV01"; Master.supplierName := js "Frutas del Sur";
        Master.products :=
          [ {| Master.productCode := js "P001";
               Master.productName := js "Delicious Apples" |};
            {| Master.productCode := js "P002";
               Master.productName := js "Fresh Bananas" |} ] |});
    (js "20-12345678-9",
     {| Master.supplierCode := js "PRV02"; Master.supplierName := js "Lacteos";
        Master.products :=
          [ {| Master.productCode := js "L001"; Master.productName := js "Milk" |} ] |}) ].

Definition demoHeader (c : option str) : InvoiceHeader :=
  {| invoiceNumber := js "0001-00001234"; invoiceDate := js "2024-05-01";
     cuit := c; totalAmount := 16; ivaPerception := None;
     grossIncomePerception := None; otherTaxes := None;
     supplierName := Some (js "Frutas del Sur SA") |}.

Definition demoOcr : OcrData :=
  {| ocrHeader := demoHeader (Some (js "30712345678"));
     ocrItems := Some
       [ {| Ocr.description := js "delicious apples"; Ocr.quantity := 2;
            Ocr.unitPrice := 3; Ocr.total := 6 |};
         {| Ocr.description := js "Cheese"; Ocr.quantity := 1;
            Ocr.unitPrice := 10; Ocr.total := 10 |} ] |}.

(** [Date.now()] returning the same millisecond for every call. *)
Definition demoClock (_ : nat) : N := 1715000000000%N.

(** The form state of the mapped [demoOcr]. *)
Definition demoForm : InvoiceData :=
  mapOcrData asciiToLowerCase demoClock demoMaster demoOcr.




(** A CSV file of the master data, with Windows line endings, a blank line
    and two rows of the same supplier. *)
Definition demoCsvLines : list str :=
  map js ["CUIT,RAZON_SOCIAL,CODIGO_PROVEEDOR,CODIGO_PRODUCTO,NOMBRE_PRODUCTO";
          "30-71234567-8,Fruit SA,PR1,P001,Apples";
          "  ";
          "20-12345678-9,Dairy SRL,PR2,L001,Milk";
          "30-71234567-8,Fruit SA,PR1,P002, Pears "]%string.

Definition demoCsvText : str := Csv.joinLines [13%Z; 10%Z] demoCsvLines.

(** * Proofs *)

(** ** Alignments and edit scripts *)

Lemma ed_nil_r (a : str) : ed a [] = length a.
Proof. destruct a; reflexivity. Qed.

Lemma ed_cons_cons (x y : Z) (a b : str) :
  ed (x :: a) (y :: b) =
  Nat.min (ed a b + if Z.eqb x y then 0 else 1)
          (Nat.min (S (ed a (y :: b))) (S (ed (x :: a) b))).
Proof. reflexivity. Qed.

Lemma align_ed (a b : str) : align a b (ed a b).
Proof.
  revert b; induction a as [|x a IHa]; intros b.
  - induction b as [|y b IHb]; [constructor | simpl; now constructor].
  - induction b as [|y b IHb].
    + rewrite ed_nil_r. simpl. constructor. rewrite <- ed_nil_r. apply IHa.
    + rewrite ed_cons_cons.
      destruct (Nat.le_ge_cases (ed a b + if Z.eqb x y then 0 else 1)
                  (Nat.min (S (ed a (y :: b))) (S (ed (x :: a) b)))) as [H|H].
      * rewrite Nat.min_l by exact H. now constructor.
      * rewrite Nat.min_r by exact H.
        destruct (Nat.le_ge_cases (ed a (y :: b)) (ed (x :: a) b)) as [H'|H'].
        -- rewrite Nat.min_l by lia. now constructor.
        -- rewrite Nat.min_r by lia. now constructor.
Qed.

Lemma ed_le_align (a b : str) (k : nat) : align a b k -> ed a b <= k.
Proof.
  induction 1 as [|x y a b k _ IH|x a b k _ IH|y a b k _ IH].
  - reflexivity.
  - rewrite ed_cons_cons. lia.
  - destruct b as [|y b].
    + rewrite ed_nil_r in *. simpl. lia.
    + rewrite ed_cons_cons. lia.
  - destruct a as [|x a].
    + simpl in *. lia.
    + rewrite ed_cons_cons. lia.
Qed.

Lemma align_sym (a b : str) (k : nat) : align a b k -> align b a k.
Proof.
  induction 1.
  - constructor.
  - rewrite Z.eqb_sym. now constructor.
  - now constructor.
  - now constructor.
Qed.

Lemma ed_sym (a b : str) : ed a b = ed b a.
Proof.
  apply Nat.le_antisymm; apply ed_le_align, align_sym, align_ed.
Qed.

Lemma align_refl (s : str) : align s s 0.
Proof.
  induction s as [|x s IH]; [constructor|].
  replace 0 with (0 + if Z.eqb x x then 0 else 1) by (now rewrite Z.eqb_refl).
  now constructor.
Qed.

(** Deleting a character of the source costs one more alignment step. *)
Lemma align_add_left (s t : str) (k : nat) :
  align s t k -> forall p q c, s = p ++ q -> align (p ++ c :: q) t (S k).
Proof.
  induction 1 as [|x y a b k H IH|x a b k H IH|y a b k H IH];
    intros p q c E.
  - destruct p, q; try discriminate. simpl. do 2 constructor.
  - destruct p as [|z p]; simpl in *.
    + subst q. constructor. now constructor.
    + injection E as -> ->. specialize (IH p q c eq_refl).
      replace (S (k + _)) with (S k + if Z.eqb z y then 0 else 1) by lia.
      now constructor.
  - destruct p as [|z p]; simpl in *.
    + subst q. constructor. now constructor.
    + injection E as -> ->. constructor. now apply IH.
  - constructor. now apply IH.
Qed.

(** Removing a character from the source costs at most one more. *)
Lemma align_remove_left (s t : str) (k : nat) :
  align s t k -> forall p q c, s = p ++ c :: q ->
  exists k', k' <= S k /\ align (p ++ q) t k'.
Proof.
  induction 1 as [|x y a b k H IH|x a b k H IH|y a b k H IH];
    intros p q c E.
  - destruct p; discriminate.
  - destruct p as [|z p]; simpl in *.
    + injection E as -> ->. exists (S k). split; [lia|]. now constructor.
    + injection E as -> ->. destruct (IH p q c eq_refl) as (k' & Hk & Ha).
      exists (k' + if Z.eqb z y then 0 else 1). split; [lia|].
      now constructor.
  - destruct p as [|z p]; simpl in *.
    + injection E as -> ->. exists k. split; [lia|exact H].
    + injection E as -> ->. destruct (IH p q c eq_refl) as (k' & Hk & Ha).
      exists (S k'). split; [lia|]. now constructor.
  - destruct (IH p q c E) as (k' & Hk & Ha).
    exists (S k'). split; [lia|]. now constructor.
Qed.

(** Replacing a character of the source costs at most one more. *)
Lemma align_replace_left (s t : str) (k : nat) :
  align s t k -> forall p q c d, s = p ++ d :: q ->
  exists k', k' <= S k /\ align (p ++ c :: q) t k'.
Proof.
  induction 1 as [|x y a b k H IH|x a b k H IH|y a b k H IH];
    intros p q c d E.
  - destruct p; discriminate.
  - destruct p as [|z p]; simpl in *.
    + injection E as -> ->.
      exists (k + if Z.eqb c y then 0 else 1). split.
      * destruct (Z.eqb c y), (Z.eqb d y); lia.
      * now constructor.
    + injection E as -> ->. destruct (IH p q c d eq_refl) as (k' & Hk & Ha).
      exists (k' + if Z.eqb z y then 0 else 1). split; [lia|].
      now constructor.
  - destruct p as [|z p]; simpl in *.
    + injection E as -> ->. exists (S k). split; [lia|]. now constructor.
    + injection E as -> ->. destruct (IH p q c d eq_refl) as (k' & Hk & Ha).
      exists (S k'). split; [lia|]. now constructor.
  - destruct (IH p q c d E) as (k' & Hk & Ha).
    exists (S k'). split; [lia|]. now constructor.
Qed.

Lemma align_edit_step (s s' t : str) (k : nat) :
  edit_step s s' -> align s' t k -> exists k', k' <= S k /\ align s t k'.
Proof.
  intros Hs Ha. destruct Hs as [p q c|p q c|p q c d].
  - exact (align_remove_left _ _ _ Ha p q c eq_refl).
  - exists (S k). split; [lia|]. exact (align_add_left _ _ _ Ha p q c eq_refl).
  - exact (align_replace_left _ _ _ Ha p q c d eq_refl).
Qed.

Lemma edits_align (n : nat) (s t : str) :
  edits n s t -> exists k, k <= n /\ align s t k.
Proof.
  induction 1 as [s|n s s' t Hs _ (k & Hk & Ha)].
  - exists 0. split; [lia|apply align_refl].
  - destruct (align_edit_step _ _ _ _ Hs Ha) as (k' & Hk' & Ha').
    exists k'. split; [lia|exact Ha'].
Qed.

Lemma edits_trans (n m : nat) (s u t : str) :
  edits n s u -> edits m u t -> edits (n + m) s t.
Proof.
  induction 1; intros; simpl; [assumption|].
  econstructor; eauto.
Qed.

Lemma edit_step_front (x : Z) (s s' : str) :
  edit_step s s' -> edit_step (x :: s) (x :: s').
Proof.
  destruct 1 as [p q c|p q c|p q c d].
  - exact (Insert (x :: p) q c).
  - exact (Delete (x :: p) q c).
  - exact (Substitute (x :: p) q c d).
Qed.

Lemma edits_front (x : Z) (n : nat) (s t : str) :
  edits n s t -> edits n (x :: s) (x :: t).
Proof.
  induction 1; econstructor; eauto using edit_step_front.
Qed.

Lemma edits_one (s t : str) : edit_step s t -> edits 1 s t.
Proof. intros H. econstructor; [exact H|constructor]. Qed.

Lemma align_edits (s t : str) (k : nat) : align s t k -> edits k s t.
Proof.
  induction 1 as [|x y a b k _ IH|x a b k _ IH|y a b k _ IH].
  - constructor.
  - apply (edits_trans _ _ _ (x :: b)); [now apply edits_front|].
    destruct (Z.eqb x y) eqn:Hxy.
    + apply Z.eqb_eq in Hxy. subst. constructor.
    + apply edits_one. exact (Substitute [] b x y).
  - apply (edits_trans 1 _ _ a); [|exact IH].
    apply edits_one. exact (Delete [] a x).
  - replace (S k) with (k + 1) by lia.
    apply (edits_trans _ _ _ b); [exact IH|].
    apply edits_one. exact (Insert [] b y).
Qed.

Lemma edit_step_rev (s t : str) : edit_step s t -> edit_step (rev s) (rev t).
Proof.
  destruct 1 as [p q c|p q c|p q c d]; rewrite !rev_app_distr; simpl;
    rewrite <- !app_assoc; simpl; constructor.
Qed.

Lemma edits_rev (n : nat) (s t : str) : edits n s t -> edits n (rev s) (rev t).
Proof.
  induction 1; econstructor; eauto using edit_step_rev.
Qed.

(** [ed] is the least number of edits. *)
Lemma ed_edits (a b : str) : edits (ed a b) a b.
Proof. apply align_edits, align_ed. Qed.

Lemma ed_le_edits (n : nat) (a b : str) : edits n a b -> ed a b <= n.
Proof.
  intros H. destruct (edits_align _ _ _ H) as (k & Hk & Ha).
  apply ed_le_align in Ha. lia.
Qed.

Lemma ed_le_S_left (x : Z) (a b : str) : ed a b <= S (ed (x :: a) b).
Proof.
  destruct (align_remove_left _ _ _ (align_ed (x :: a) b) [] a x eq_refl)
    as (k' & Hk & Ha).
  apply ed_le_align in Ha. simpl in Ha. lia.
Qed.

Lemma ed_le_S_right (y : Z) (a b : str) : ed a b <= S (ed a (y :: b)).
Proof. rewrite (ed_sym a), (ed_sym a). apply ed_le_S_left. Qed.

(** ** The matrix of [levenshteinDistance] *)

Lemma E_nil_l (b : str) : E [] b = length b.
Proof. unfold E. simpl. now rewrite length_rev. Qed.

Lemma E_nil_r (a : str) : E a [] = length a.
Proof. unfold E. simpl. now rewrite ed_nil_r, length_rev. Qed.

(** The recurrence of the cell [matrix[i][j]], with [b[i - 1] = y] and
    [a[j - 1] = x]. *)
Lemma E_snoc (x y : Z) (A B : str) :
  E (A ++ [x]) (B ++ [y]) =
  if Z.eqb y x then E A B
  else Nat.min (E A B + 1) (Nat.min (E A (B ++ [y]) + 1) (E (A ++ [x]) B + 1)).
Proof.
  unfold E. rewrite !rev_unit, ed_cons_cons, (Z.eqb_sym x y).
  destruct (Z.eqb y x) eqn:Hyx.
  - apply Z.eqb_eq in Hyx. subst.
    pose proof (ed_le_S_right x (rev A) (rev B)).
    pose proof (ed_le_S_left x (rev A) (rev B)). lia.
  - lia.
Qed.

Lemma fill_map (bc : Z) (P C : nat -> nat) (suf : str) (j : nat) :
  (forall k x, nth_error suf k = Some x ->
     C (S (j + k)) =
     if Z.eqb bc x then P (j + k)
     else Nat.min (P (j + k) + 1)
                  (Nat.min (C (j + k) + 1) (P (S (j + k)) + 1))) ->
  fill bc suf (map P (seq j (S (length suf)))) (C j)
  = map C (seq (S j) (length suf)).
Proof.
  revert j. induction suf as [|x suf IH]; intros j H; [reflexivity|].
  simpl length. cbn [map seq fill].
  pose proof (H 0 x eq_refl) as H0. rewrite Nat.add_0_r in H0.
  rewrite <- H0. f_equal.
  apply (IH (S j)). intros k y Hk.
  replace (S j + k) with (j + S k) by lia. now apply H.
Qed.

Lemma firstn_snoc {A : Type} (l : list A) (k : nat) (x : A) :
  nth_error l k = Some x -> firstn (S k) l = firstn k l ++ [x].
Proof.
  revert k; induction l as [|z l IH]; intros [|k] H; try discriminate.
  - injection H as ->. reflexivity.
  - simpl in *. f_equal. now apply IH.
Qed.

Lemma skipn_nth_error {A : Type} (l : list A) (i : nat) (y : A) :
  nth_error l i = Some y -> skipn i l = y :: skipn (S i) l.
Proof.
  revert i; induction l as [|z l IH]; intros [|i] H; try discriminate.
  - injection H as ->. reflexivity.
  - simpl in *. now apply IH.
Qed.

Lemma nth_map_seq {A : Type} (f : nat -> A) (n m : nat) (d : A) :
  n < m -> nth n (map f (seq 0 m)) d = f n.
Proof.
  intros H. rewrite (nth_indep _ d (f 0)) by (rewrite length_map, length_seq; lia).
  now rewrite map_nth, seq_nth.
Qed.

(** Row [i] of the matrix holds the distances of the prefixes of [a] to the
    prefix of length [i] of [b]. *)
Lemma fill_row (a b : str) (i : nat) (y : Z) :
  nth_error b i = Some y ->
  S i :: fill y a (map (fun j => E (firstn j a) (firstn i b))
                       (seq 0 (S (length a)))) (S i)
  = map (fun j => E (firstn j a) (firstn (S i) b)) (seq 0 (S (length a))).
Proof.
  intros Hy.
  set (P := fun j => E (firstn j a) (firstn i b)).
  set (C := fun j => E (firstn j a) (firstn (S i) b)).
  assert (HC0 : C 0 = S i).
  { unfold C. change (firstn 0 a) with (@nil Z). rewrite E_nil_l, length_firstn.
    assert (i < length b) by (apply nth_error_Some; congruence). lia. }
  rewrite <- HC0. cbn [seq map]. f_equal.
  apply (fill_map y P C a 0). intros k x Hx. simpl.
  unfold P, C. rewrite (firstn_snoc a k x Hx), (firstn_snoc b i y Hy).
  apply E_snoc.
Qed.

Lemma build_rows_spec (a b : str) (n i : nat) :
  i + n = length b ->
  build_rows a (skipn i b)
    (map (fun j => E (firstn j a) (firstn i b)) (seq 0 (S (length a)))) i
  = map (fun i' => map (fun j => E (firstn j a) (firstn i' b))
                       (seq 0 (S (length a))))
        (seq (S i) n).
Proof.
  revert i; induction n as [|n IH]; intros i Hn.
  - rewrite skipn_all2 by lia. reflexivity.
  - destruct (nth_error b i) as [y|] eqn:Hy.
    2:{ apply nth_error_None in Hy. lia. }
    rewrite (skipn_nth_error b i y Hy). cbn [build_rows].
    rewrite (fill_row a b i y Hy).
    change (seq (S i) (S n)) with (S i :: seq (S (S i)) n).
    rewrite map_cons. f_equal. apply IH. lia.
Qed.

(** The source's matrix computes the recursive distance. *)
Lemma levenshteinDistance_E (a b : str) : levenshteinDistance a b = E a b.
Proof.
  unfold levenshteinDistance.
  destruct (Nat.eqb (length a) 0) eqn:Ha.
  { apply Nat.eqb_eq, length_zero_iff_nil in Ha. subst. now rewrite E_nil_l. }
  destruct (Nat.eqb (length b) 0) eqn:Hb.
  { apply Nat.eqb_eq, length_zero_iff_nil in Hb. subst. now rewrite E_nil_r. }
  apply Nat.eqb_neq in Ha, Hb.
  set (R := fun i' => map (fun j => E (firstn j a) (firstn i' b))
                          (seq 0 (S (length a)))).
  assert (H0 : seq 0 (S (length a)) = R 0).
  { unfold R. rewrite <- (map_id (seq 0 _)) at 1. apply map_ext_in.
    intros j Hj. apply in_seq in Hj. change (firstn 0 b) with (@nil Z).
    rewrite E_nil_r, length_firstn. lia. }
  rewrite H0.
  assert (Hr : build_rows a b (R 0) 0 = map R (seq 1 (length b)))
    by exact (build_rows_spec a b (length b) 0 eq_refl).
  rewrite Hr.
  change (R 0 :: map R (seq 1 (length b))) with (map R (seq 0 (S (length b)))).
  rewrite nth_map_seq by lia. unfold R.
  rewrite nth_map_seq by lia. now rewrite !firstn_all.
Qed.

Lemma ed_le_max (a b : str) : ed a b <= Nat.max (length a) (length b).
Proof.
  revert b; induction a as [|x a IH]; intros [|y b]; try (simpl; lia).
  rewrite ed_cons_cons. simpl length.
  specialize (IH b). destruct (Z.eqb x y); lia.
Qed.

Lemma align_length (a b : str) (k : nat) :
  align a b k -> length a <= length b + k /\ length b <= length a + k.
Proof. induction 1; simpl; try destruct (Z.eqb _ _); lia. Qed.

(** ** Claims on [levenshteinDistance] *)

(** C1: [levenshteinDistance a b] is the least number of unit-cost
    single-character insertions, deletions and substitutions (anywhere in
    the string; no transposition) that transform [a] into [b]: such a script
    of that length exists, and every script is at least that long. *)
Theorem levenshteinDistance_min_edits (a b : str) :
  edits (levenshteinDistance a b) a b /\
  (forall n, edits n a b -> levenshteinDistance a b <= n).
Proof.
  rewrite levenshteinDistance_E. unfold E. split.
  - rewrite <- (rev_involutive a), <- (rev_involutive b) at 2.
    apply edits_rev, ed_edits.
  - intros n H. apply ed_le_edits, edits_rev, H.
Qed.

(** C6: the distance is symmetric in its two arguments. *)
Theorem levenshteinDistance_sym (a b : str) :
  levenshteinDistance a b = levenshteinDistance b a.
Proof. rewrite !levenshteinDistance_E. unfold E. apply ed_sym. Qed.

(** C7: the distance is at most the larger length and at least the
    absolute difference of the lengths. *)
Theorem levenshteinDistance_bounds (a b : str) :
  levenshteinDistance a b <= Nat.max (length a) (length b) /\
  (Z.abs (Z.of_nat (length a) - Z.of_nat (length b))
   <= Z.of_nat (levenshteinDistance a b))%Z.
Proof.
  rewrite levenshteinDistance_E. unfold E. split.
  - rewrite <- (length_rev a), <- (length_rev b). apply ed_le_max.
  - destruct (align_length _ _ _ (align_ed (rev a) (rev b))) as [H1 H2].
    rewrite !length_rev in H1, H2. lia.
Qed.

(** ** The selector *)

Lemma Qgtb_true (x y : Q) : Qgtb x y = true <-> (y < x)%Q.
Proof.
  unfold Qgtb. destruct (Qlt_le_dec y x) as [H|H]; split; intros; try easy.
  exfalso. now apply (Qle_not_lt x y).
Qed.

Lemma Qgtb_false (x y : Q) : Qgtb x y = false <-> (x <= y)%Q.
Proof.
  unfold Qgtb. destruct (Qlt_le_dec y x) as [H|H]; split; intros; try easy.
  exfalso. now apply (Qle_not_lt x y).
Qed.

Section SelectorProofs.

Context {T : Type}.
Variable truthy : T -> bool.
Variable toLowerCase : str -> str.

(** The loop keeps the first candidate of highest score, if any beats the
    initial [highScore]. *)
Lemma scan_spec (dist : str -> str -> nat) (targetLower : str)
    (keyExtractor : T -> str) (l : list T) :
  let sc := candidateScore toLowerCase dist targetLower keyExtractor in
  forall bm hs,
  (fold_left (scan_step toLowerCase dist targetLower keyExtractor) l (bm, hs)
     = (bm, hs) /\ forall c, In c l -> (sc c <= hs)%Q) \/
  (exists i c,
     nth_error l i = Some c /\
     fold_left (scan_step toLowerCase dist targetLower keyExtractor) l (bm, hs)
       = (Some c, sc c) /\
     (hs < sc c)%Q /\
     (forall j c', j < i -> nth_error l j = Some c' -> (sc c' < sc c)%Q) /\
     (forall c', In c' l -> (sc c' <= sc c)%Q)).
Proof.
  intros sc. induction l as [|x l IH]; intros bm hs.
  - left. split; [reflexivity|intros c []].
  - assert (Hstep : scan_step toLowerCase dist targetLower keyExtractor (bm, hs) x
                     = if Qgtb (sc x) hs then (Some x, sc x) else (bm, hs))
      by reflexivity.
    cbn [fold_left]. rewrite Hstep.
    destruct (Qgtb (sc x) hs) eqn:Hx.
    + apply Qgtb_true in Hx. right.
      destruct (IH (Some x) (sc x)) as [[-> Hall]|(i & c & Hi & -> & Hlt & Hfirst & Hmax)].
      * exists 0, x. repeat split; auto.
        -- intros j c' Hj. lia.
        -- intros c' [<-|Hc']; [apply Qle_refl|auto].
      * exists (S i), c. repeat split; auto.
        -- apply (Qlt_trans _ (sc x)); assumption.
        -- intros [|j] c' Hj Hc'; simpl in Hc'.
           ++ injection Hc' as <-. exact Hlt.
           ++ apply (Hfirst j); [lia|exact Hc'].
        -- intros c' [<-|Hc']; [now apply Qlt_le_weak|auto].
    + apply Qgtb_false in Hx.
      destruct (IH bm hs) as [[-> Hall]|(i & c & Hi & -> & Hlt & Hfirst & Hmax)].
      * left. split; [reflexivity|]. intros c' [<-|Hc']; auto.
      * right. exists (S i), c. repeat split; auto.
        -- intros [|j] c' Hj Hc'; simpl in Hc'.
           ++ injection Hc' as <-. now apply (Qle_lt_trans _ hs).
           ++ apply (Hfirst j); [lia|exact Hc'].
        -- intros c' [<-|Hc']; [|auto].
           apply Qlt_le_weak, (Qle_lt_trans _ hs); assumption.
Qed.

(** What a non-null result of [findBestMatchWith] is made of. *)
Lemma findBestMatchWith_some (dist : str -> str -> nat) (target : str)
    (candidates : list T) (keyExtractor : T -> str) (c : T) (s : Q) :
  findBestMatchWith truthy toLowerCase dist target candidates keyExtractor
    = Some (c, s) ->
  let sc := candidateScore toLowerCase dist (toLowerCase target) keyExtractor in
  target <> [] /\ truthy c = true /\ (1 # 2 < s)%Q /\
  exists i, nth_error candidates i = Some c /\ s = sc c /\
    (forall j c', j < i -> nth_error candidates j = Some c' -> (sc c' < s)%Q) /\
    (forall c', In c' candidates -> (sc c' <= s)%Q).
Proof.
  intros H sc. unfold findBestMatchWith in H.
  destruct (Nat.eqb (length target) 0 || Nat.eqb (length candidates) 0)
    eqn:Hguard; [discriminate|].
  apply orb_false_iff in Hguard as [Ht _].
  destruct (scan_spec dist (toLowerCase target) keyExtractor candidates None (-1)%Q)
    as [[Hr _]|(i & c0 & Hi & Hr & _ & Hfirst & Hmax)];
    rewrite Hr in H; [discriminate|].
  cbv beta iota zeta in H.
  destruct (truthy c0 &&
            Qgtb (candidateScore toLowerCase dist (toLowerCase target)
                    keyExtractor c0) (1 # 2)) eqn:Hacc; [|discriminate].
  injection H as <- <-. apply andb_true_iff in Hacc as [Htr Hgt].
  apply Qgtb_true in Hgt.
  repeat split; auto.
  - intros ->. discriminate.
  - exists i. repeat split; auto.
Qed.

End SelectorProofs.

(** ** Scores *)

Lemma Q_of_nat_nonneg (n : nat) : (0 <= inject_Z (Z.of_nat n))%Q.
Proof. unfold Qle. simpl. lia. Qed.

Lemma Q_of_nat_pos (n : nat) : 0 < n -> (0 < inject_Z (Z.of_nat n))%Q.
Proof. intros H. unfold Qlt. simpl. lia. Qed.

Lemma similarity_le_1 (d l1 l2 : nat) : (similarity d l1 l2 <= 1)%Q.
Proof.
  unfold similarity. destruct (Nat.eqb (Nat.max l1 l2) 0) eqn:Hm.
  - apply Qle_refl.
  - apply Nat.eqb_neq in Hm.
    assert (0 <= inject_Z (Z.of_nat d) / inject_Z (Z.of_nat (Nat.max l1 l2)))%Q.
    { apply Qle_shift_div_l; [apply Q_of_nat_pos; lia|].
      rewrite Qmult_0_l. apply Q_of_nat_nonneg. }
    lra.
Qed.

Lemma similarity_0 (l1 l2 : nat) : (similarity 0 l1 l2 == 1)%Q.
Proof.
  unfold similarity. destruct (Nat.eqb (Nat.max l1 l2) 0); [reflexivity|].
  unfold Qdiv. simpl. rewrite Qmult_0_l. reflexivity.
Qed.

Lemma similarity_lt_1 (d l1 l2 : nat) :
  0 < d -> 0 < Nat.max l1 l2 -> (similarity d l1 l2 < 1)%Q.
Proof.
  intros Hd Hm. unfold similarity.
  destruct (Nat.eqb (Nat.max l1 l2) 0) eqn:Hz; [apply Nat.eqb_eq in Hz; lia|].
  assert (0 < inject_Z (Z.of_nat d) / inject_Z (Z.of_nat (Nat.max l1 l2)))%Q.
  { apply Qlt_shift_div_l; [apply Q_of_nat_pos; lia|].
    rewrite Qmult_0_l. now apply Q_of_nat_pos. }
  lra.
Qed.

Lemma levenshteinDistance_refl (s : str) : levenshteinDistance s s = 0.
Proof.
  rewrite levenshteinDistance_E. unfold E.
  pose proof (ed_le_align _ _ _ (align_refl (rev s))). lia.
Qed.

Lemma levenshteinDistance_zero (a b : str) : levenshteinDistance a b = 0 -> a = b.
Proof.
  rewrite levenshteinDistance_E. unfold E. intros H.
  pose proof (ed_edits (rev a) (rev b)) as He. rewrite H in He.
  assert (Hr : rev a = rev b) by (inversion He; congruence).
  rewrite <- (rev_involutive a), <- (rev_involutive b). now rewrite Hr.
Qed.

Section ScoreProofs.

Context {T : Type}.
Variable toLowerCase : str -> str.

Lemma candidateScore_le_1 dist targetLower (keyExtractor : T -> str) c :
  (candidateScore toLowerCase dist targetLower keyExtractor c <= 1)%Q.
Proof. apply similarity_le_1. Qed.

(** Only an exact match of the lower-cased strings scores 1. *)
Lemma candidateScore_1_iff targetLower (keyExtractor : T -> str) c :
  (candidateScore toLowerCase levenshteinDistance targetLower keyExtractor c
     == 1)%Q <-> toLowerCase (keyExtractor c) = targetLower.
Proof.
  unfold candidateScore. split.
  - intros H. destruct (list_eq_dec Z.eq_dec (toLowerCase (keyExtractor c))
                          targetLower) as [E1|E1]; [exact E1|exfalso].
    set (x := toLowerCase (keyExtractor c)) in *.
    destruct (Nat.eq_dec (levenshteinDistance targetLower x) 0) as [Hd|Hd].
    { apply levenshteinDistance_zero in Hd. congruence. }
    destruct (Nat.eq_dec (Nat.max (length targetLower) (length x)) 0) as [Hm|Hm].
    { assert (length targetLower = 0) as H1 by lia.
      assert (length x = 0) as H2 by lia.
      apply length_zero_iff_nil in H1, H2. congruence. }
    pose proof (similarity_lt_1 (levenshteinDistance targetLower x)
                  (length targetLower) (length x)) as Hlt.
    rewrite H in Hlt. apply (Qlt_irrefl 1), Hlt; lia.
  - intros ->. rewrite levenshteinDistance_refl. apply similarity_0.
Qed.

End ScoreProofs.

(** ** Claims on [findBestMatch] *)

(** C3: with an empty query or an empty candidate list the result is no
    match, whatever the distance function: it is not consulted. *)
Theorem findBestMatch_empty_input {T : Type} (truthy : T -> bool)
    (toLowerCase : str -> str) (dist : str -> str -> nat) (target : str)
    (candidates : list T) (keyExtractor : T -> str) :
  target = [] \/ candidates = [] ->
  findBestMatchWith truthy toLowerCase dist target candidates keyExtractor
  = None.
Proof.
  intros [-> | ->]; unfold findBestMatchWith; simpl; [reflexivity|].
  now rewrite orb_true_r.
Qed.

Lemma findBestMatch_empty_input_witness :
  findBestMatchWith productTruthy asciiToLowerCase levenshteinDistance
    [] products name = None /\
  findBestMatchWith productTruthy asciiToLowerCase levenshteinDistance
    (js "Apples") [] name = None.
Proof.
  split; apply findBestMatch_empty_input; [left|right]; reflexivity.
Defined.

(** C4: a non-null result is the first candidate, in list order, of
    highest score: every candidate scores at most the returned score, and
    every candidate before it scores strictly less. *)
Theorem findBestMatch_first_best {T : Type} (truthy : T -> bool)
    (toLowerCase : str -> str) (target : str) (candidates : list T)
    (keyExtractor : T -> str) (c : T) (s : Q) :
  findBestMatch truthy toLowerCase target candidates keyExtractor = Some (c, s) ->
  let score :=
    candidateScore toLowerCase levenshteinDistance (toLowerCase target)
      keyExtractor in
  exists i, nth_error candidates i = Some c /\ s = score c /\
    (forall c', In c' candidates -> (score c' <= s)%Q) /\
    (forall j c', j < i -> nth_error candidates j = Some c' ->
                 (score c' < s)%Q).
Proof.
  intros H score.
  destruct (findBestMatchWith_some _ _ _ _ _ _ _ _ H)
    as (_ & _ & _ & i & Hi & Hs & Hfirst & Hmax).
  exists i. repeat split; assumption.
Qed.

Lemma findBestMatch_first_best_witness :
  findBestMatch productTruthy asciiToLowerCase (js "Green Apples") twins name
  = Some (nth 0 twins (Build_Product [] []),
          candidateScore asciiToLowerCase levenshteinDistance
            (asciiToLowerCase (js "Green Apples")) name
            (nth 0 twins (Build_Product [] []))) /\
  exists i, nth_error twins i = Some (nth 0 twins (Build_Product [] [])) /\ True.
Proof.
  assert (H : findBestMatch productTruthy asciiToLowerCase (js "Green Apples")
                twins name
              = Some (nth 0 twins (Build_Product [] []),
                      candidateScore asciiToLowerCase levenshteinDistance
                        (asciiToLowerCase (js "Green Apples")) name
                        (nth 0 twins (Build_Product [] []))))
    by (vm_compute; reflexivity).
  split; [exact H|].
  destruct (findBestMatch_first_best _ _ _ _ _ _ _ H) as (i & Hi & _).
  exists i. split; [exact Hi|exact I].
Defined.

(** C10: a non-null result is an element of the candidate list, and its
    score is the similarity of the lower-cased query and the lower-cased
    label of that element. *)
Theorem findBestMatch_result_member {T : Type} (truthy : T -> bool)
    (toLowerCase : str -> str) (target : str) (candidates : list T)
    (keyExtractor : T -> str) (c : T) (s : Q) :
  findBestMatch truthy toLowerCase target candidates keyExtractor = Some (c, s) ->
  In c candidates /\
  s = similarity
        (levenshteinDistance (toLowerCase target) (toLowerCase (keyExtractor c)))
        (length (toLowerCase target)) (length (toLowerCase (keyExtractor c))).
Proof.
  intros H.
  destruct (findBestMatchWith_some _ _ _ _ _ _ _ _ H)
    as (_ & _ & _ & i & Hi & Hs & _ & _).
  split; [now apply nth_error_In with i|exact Hs].
Qed.

Lemma findBestMatch_result_member_witness :
  In (nth 0 products (Build_Product [] [])) products.
Proof.
  assert (H : findBestMatch productTruthy asciiToLowerCase (js "Delicius Apples")
                products name
              = Some (nth 0 products (Build_Product [] []), similarity 1 15 16))
    by (vm_compute; reflexivity).
  exact (proj1 (findBestMatch_result_member _ _ _ _ _ _ _ H)).
Defined.

(** C8: the selector gives the same result, candidate and score, for a
    query and for its lower-cased form, since it lower-cases the query
    itself; this uses that lower-casing is idempotent and keeps a string
    empty or non-empty, as [String.prototype.toLowerCase] does. *)
Theorem findBestMatch_query_case {T : Type} (truthy : T -> bool)
    (toLowerCase : str -> str) (target : str) (candidates : list T)
    (keyExtractor : T -> str)
    (Hidem : toLowerCase (toLowerCase target) = toLowerCase target)
    (Hempty : toLowerCase target = [] <-> target = []) :
  findBestMatch truthy toLowerCase target candidates keyExtractor
  = findBestMatch truthy toLowerCase (toLowerCase target) candidates
      keyExtractor.
Proof.
  unfold findBestMatch, findBestMatchWith. rewrite Hidem.
  replace (Nat.eqb (length (toLowerCase target)) 0)
    with (Nat.eqb (length target) 0); [reflexivity|].
  destruct (Nat.eqb (length target) 0) eqn:H1; symmetry.
  - apply Nat.eqb_eq, length_zero_iff_nil in H1.
    apply Nat.eqb_eq, length_zero_iff_nil. tauto.
  - apply Nat.eqb_neq in H1. apply Nat.eqb_neq. intros H2.
    apply length_zero_iff_nil, Hempty in H2. subst. simpl in H1. lia.
Qed.

Lemma findBestMatch_query_case_witness :
  findBestMatch productTruthy asciiToLowerCase (js "Delicius Apples")
    products name
  = findBestMatch productTruthy asciiToLowerCase
      (asciiToLowerCase (js "Delicius Apples")) products name.
Proof.
  apply findBestMatch_query_case.
  - vm_compute. reflexivity.
  - split; intros H; vm_compute in H; discriminate H.
Defined.

(** C9: the normalisation does not divide when both lengths are 0 and
    yields 1 there; a candidate whose label is empty is scored against a
    non-empty query like any other and gets exactly 0, so it is never the
    result. Lower-casing keeps the empty string empty and the query
    non-empty. *)
Theorem empty_label_scores_zero {T : Type} (truthy : T -> bool)
    (toLowerCase : str -> str) (target : str) (candidates : list T)
    (keyExtractor : T -> str) (c : T)
    (HnilLower : toLowerCase [] = [])
    (Hquery : toLowerCase target <> [])
    (Hlabel : keyExtractor c = []) :
  (forall d, similarity d 0 0 = 1%Q) /\
  (candidateScore toLowerCase levenshteinDistance (toLowerCase target)
     keyExtractor c == 0)%Q /\
  (forall s, findBestMatch truthy toLowerCase target candidates keyExtractor
             <> Some (c, s)).
Proof.
  assert (Hz : (candidateScore toLowerCase levenshteinDistance
                  (toLowerCase target) keyExtractor c == 0)%Q).
  { unfold candidateScore. rewrite Hlabel, HnilLower.
    rewrite levenshteinDistance_E, E_nil_r. unfold similarity.
    simpl length. rewrite Nat.max_0_r.
    destruct (Nat.eqb (length (toLowerCase target)) 0) eqn:Hl.
    - apply Nat.eqb_eq, length_zero_iff_nil in Hl. contradiction.
    - apply Nat.eqb_neq in Hl. unfold Qdiv. rewrite Qmult_inv_r.
      + reflexivity.
      + intros H. apply (Qlt_irrefl 0). rewrite <- H at 2.
        apply Q_of_nat_pos. lia. }
  split; [reflexivity|]. split; [exact Hz|].
  intros s H.
  destruct (findBestMatchWith_some _ _ _ _ _ _ _ _ H)
    as (_ & _ & Hgt & i & Hi & Hs & _ & _).
  rewrite Hs in Hgt. rewrite Hz in Hgt. discriminate Hgt.
Qed.

Lemma empty_label_scores_zero_witness :
  (candidateScore asciiToLowerCase levenshteinDistance
     (asciiToLowerCase (js "Delicious Apples")) name
     (nth 0 withBlank (Build_Product [] [])) == 0)%Q.
Proof.
  apply (empty_label_scores_zero productTruthy asciiToLowerCase
           (js "Delicious Apples") withBlank name
           (nth 0 withBlank (Build_Product [] []))).
  - reflexivity.
  - intros H. vm_compute in H. discriminate H.
  - reflexivity.
Defined.

(** C2, at a falsy winning candidate: with the candidate [false] labelled
    "no" and the query "no", the highest score is 1 > 0.5 and the result is
    still no match, because the final test [bestMatch && highScore > 0.5]
    reads the truthiness of the candidate, not only whether one was kept. *)
Theorem findBestMatch_falsy_best_dropped :
  (candidateScore asciiToLowerCase levenshteinDistance
     (asciiToLowerCase (js "no")) yesNo false == 1)%Q /\
  findBestMatch boolTruthy asciiToLowerCase (js "no") [false] yesNo = None.
Proof. split; vm_compute; reflexivity. Qed.

(** C5, at a falsy exact match: the candidates [true] ("yes") and [false]
    ("no") with the query "no"; [false] is the first exact match and the
    result is no match, by the same truthiness test. *)
Theorem findBestMatch_falsy_exact_dropped :
  asciiToLowerCase (yesNo false) = asciiToLowerCase (js "no") /\
  findBestMatch boolTruthy asciiToLowerCase (js "no") [true; false] yesNo
  = None.
Proof. split; vm_compute; reflexivity. Qed.

(** When every candidate is truthy (records, as in the catalogue of the
    application), a non-null result carries the highest score, in
    (0.5, 1], and no match means that no candidate scores above 0.5. *)
Lemma findBestMatch_threshold_truthy {T : Type} (truthy : T -> bool)
    (toLowerCase : str -> str) (target : str) (candidates : list T)
    (keyExtractor : T -> str) :
  (forall c, In c candidates -> truthy c = true) ->
  target <> [] -> candidates <> [] ->
  (forall c s,
     findBestMatch truthy toLowerCase target candidates keyExtractor
       = Some (c, s) ->
     (1 # 2 < s)%Q /\ (s <= 1)%Q /\ In c candidates /\
     s = candidateScore toLowerCase levenshteinDistance (toLowerCase target)
           keyExtractor c /\
     (forall c', In c' candidates ->
        (candidateScore toLowerCase levenshteinDistance (toLowerCase target)
           keyExtractor c' <= s)%Q)) /\
  (findBestMatch truthy toLowerCase target candidates keyExtractor = None <->
   (forall c', In c' candidates ->
      (candidateScore toLowerCase levenshteinDistance (toLowerCase target)
         keyExtractor c' <= 1 # 2)%Q)).
Proof.
  intros Htr Hq Hl. split; [|split].
  - intros c s H.
    destruct (findBestMatchWith_some _ _ _ _ _ _ _ _ H)
      as (_ & _ & Hgt & i & Hi & Hs & _ & Hmax).
    repeat split; auto.
    + rewrite Hs. apply candidateScore_le_1.
    + now apply nth_error_In with i.
  - intros H c' Hc'. unfold findBestMatch, findBestMatchWith in H.
    destruct (Nat.eqb (length target) 0 || Nat.eqb (length candidates) 0)
      eqn:G.
    { exfalso. apply orb_true_iff in G as [G|G];
        apply Nat.eqb_eq, length_zero_iff_nil in G; contradiction. }
    destruct (scan_spec toLowerCase levenshteinDistance (toLowerCase target)
                keyExtractor candidates None (-1)%Q)
      as [[Hr Hall]|(i & c0 & Hi & Hr & _ & _ & Hmax)]; rewrite Hr in H.
    + specialize (Hall c' Hc'). lra.
    + cbv beta iota zeta in H.
      rewrite (Htr c0 (nth_error_In _ _ Hi)) in H. simpl andb in H.
      destruct (Qgtb (candidateScore toLowerCase levenshteinDistance
                        (toLowerCase target) keyExtractor c0) (1 # 2)) eqn:Hg;
        [discriminate|].
      apply Qgtb_false in Hg. eapply Qle_trans; [apply Hmax, Hc'|exact Hg].
  - intros Hall.
    destruct (findBestMatch truthy toLowerCase target candidates keyExtractor)
      as [[c s]|] eqn:H; [|reflexivity].
    exfalso.
    destruct (findBestMatchWith_some _ _ _ _ _ _ _ _ H)
      as (_ & _ & Hgt & i & Hi & Hs & _ & _).
    specialize (Hall c (nth_error_In _ _ Hi)). rewrite <- Hs in Hall. lra.
Qed.

(** With a truthy first exact match, the result is that candidate with
    score 1. *)
Lemma findBestMatch_exact_truthy {T : Type} (truthy : T -> bool)
    (toLowerCase : str -> str) (target : str) (candidates : list T)
    (keyExtractor : T -> str) (i : nat) (c : T) :
  target <> [] -> nth_error candidates i = Some c ->
  toLowerCase (keyExtractor c) = toLowerCase target ->
  (forall j c', j < i -> nth_error candidates j = Some c' ->
     toLowerCase (keyExtractor c') <> toLowerCase target) ->
  truthy c = true ->
  exists s, findBestMatch truthy toLowerCase target candidates keyExtractor
            = Some (c, s) /\ (s == 1)%Q.
Proof.
  intros Hq Hi Hex Hfirst_ex Htr.
  unfold findBestMatch, findBestMatchWith.
  destruct (Nat.eqb (length target) 0 || Nat.eqb (length candidates) 0)
    eqn:G.
  { exfalso. apply orb_true_iff in G as [G|G];
      apply Nat.eqb_eq, length_zero_iff_nil in G; [contradiction|].
    subst. destruct i; discriminate. }
  destruct (scan_spec toLowerCase levenshteinDistance (toLowerCase target)
              keyExtractor candidates None (-1)%Q)
    as [[Hr Hall]|(i0 & c0 & Hi0 & Hr & _ & Hfirst & Hmax)]; rewrite Hr;
  set (sc := candidateScore toLowerCase levenshteinDistance
               (toLowerCase target) keyExtractor) in *;
  assert (Hc1 : (sc c == 1)%Q) by (now apply candidateScore_1_iff).
  { exfalso. specialize (Hall c (nth_error_In _ _ Hi)). lra. }
  assert (Hle0 : (sc c0 <= 1)%Q) by apply candidateScore_le_1.
  assert (Hc0 : (sc c0 == 1)%Q)
    by (specialize (Hmax c (nth_error_In _ _ Hi)); lra).
  assert (i0 = i) as ->.
  { destruct (lt_eq_lt_dec i0 i) as [[Hlt|Heq]|Hlt]; [|exact Heq|].
    - exfalso. apply (Hfirst_ex i0 c0 Hlt Hi0).
      now apply candidateScore_1_iff.
    - exfalso. specialize (Hfirst i c Hlt Hi). lra. }
  rewrite Hi in Hi0. injection Hi0 as <-.
  cbv beta iota zeta. rewrite Htr.
  replace (Qgtb (sc c) (1 # 2)) with true
    by (symmetry; apply Qgtb_true; lra).
  exists (sc c). split; [reflexivity|exact Hc1].
Qed.

(** * Proofs on the callers *)

(** ** Strings and identifiers *)

Lemma str_eqb_eq (a b : str) : str_eqb a b = true <-> a = b.
Proof. unfold str_eqb. destruct (list_eq_dec Z.eq_dec a b); split; congruence. Qed.

Lemma str_eqb_refl (a : str) : str_eqb a a = true.
Proof. now apply str_eqb_eq. Qed.

Lemma str_eqb_neq (a b : str) : str_eqb a b = false <-> a <> b.
Proof.
  rewrite <- str_eqb_eq. destruct (str_eqb a b); split; congruence.
Qed.

Lemma uint_str_digits (d : Decimal.uint) (c : Z) :
  In c (uint_str d) -> (48 <= c <= 57)%Z.
Proof.
  induction d; simpl; intros H; try contradiction;
    destruct H as [<-|H]; auto; lia.
Qed.

Lemma uint_str_inj (d d' : Decimal.uint) : uint_str d = uint_str d' -> d = d'.
Proof.
  revert d'. induction d; destruct d'; simpl; intros H;
    try discriminate; try reflexivity;
    injection H as H; f_equal; auto.
Qed.

Lemma decimal_inj (m n : N) : decimal m = decimal n -> m = n.
Proof.
  unfold decimal. intros H. apply uint_str_inj in H.
  rewrite <- (DecimalN.Unsigned.of_to m), <- (DecimalN.Unsigned.of_to n).
  now rewrite H.
Qed.

Lemma decimal_no_dash (n : N) : ~ In 45%Z (decimal n).
Proof. intros H. apply uint_str_digits in H. lia. Qed.

(** Splitting at the first separator is unique. *)
Lemma app_sep_inj (sep : Z) (x1 x2 y1 y2 : str) :
  ~ In sep x1 -> ~ In sep x2 -> x1 ++ sep :: y1 = x2 ++ sep :: y2 ->
  x1 = x2 /\ y1 = y2.
Proof.
  revert x2. induction x1 as [|a x1 IH]; intros [|b x2]; simpl;
    intros H1 H2 H.
  - injection H as H. auto.
  - injection H as -> _. exfalso. auto.
  - injection H as <- _. exfalso. auto.
  - injection H as -> H. destruct (IH x2) as [-> ->]; auto.
Qed.

(** Two identifiers [prefix ++ `${t}-${i}`] coincide only for the same
    index. *)
Lemma stamped_id_inj (prefix : str) (t t' i i' : N) :
  prefix ++ decimal t ++ js "-" ++ decimal i
    = prefix ++ decimal t' ++ js "-" ++ decimal i' -> i = i'.
Proof.
  intros H. apply app_inv_head in H.
  destruct (app_sep_inj 45 (decimal t) (decimal t') (decimal i) (decimal i'))
    as [_ Hi]; [apply decimal_no_dash|apply decimal_no_dash|exact H|].
  now apply decimal_inj.
Qed.

(** ** Supplier identification *)

Lemma findSupplierKey_spec (norm : str) (db : Master.MasterDatabase) :
  match findSupplierKey norm db with
  | Some k => exists pre info post,
      db = pre ++ (k, info) :: post /\ stripDashes k = norm /\
      Forall (fun e => stripDashes (fst e) <> norm) pre
  | None => Forall (fun e => stripDashes (fst e) <> norm) db
  end.
Proof.
  induction db as [|[k info] db IH]; simpl; [constructor|].
  destruct (str_eqb (stripDashes k) norm) eqn:Hk.
  - apply str_eqb_eq in Hk. exists [], info, db. auto.
  - apply str_eqb_neq in Hk.
    destruct (findSupplierKey norm db) as [k'|].
    + destruct IH as (pre & info' & post & -> & Hk' & Hpre).
      exists ((k, info) :: pre), info', post. auto.
    + constructor; auto.
Qed.

(** ** Mapping the OCR items *)

Section MappingProofs.

Variable toLowerCase : str -> str.
Variable clock : nat -> N.

Lemma mapOcrItem_fields (info : option Master.SupplierInfo) (i : nat)
    (o : Ocr.OcrItem) :
  let it := mapOcrItem toLowerCase clock info i o in
  id it = ocrItemId clock i /\ ocrDescription it = Ocr.description o /\
  ocrQuantity it = Ocr.quantity o /\ ocrUnitPrice it = Ocr.unitPrice o /\
  quantity it = Ocr.quantity o /\ unitPrice it = Ocr.unitPrice o /\
  total it = Ocr.total o.
Proof.
  unfold mapOcrItem. destruct info as [info|]; [|repeat split].
  destruct (matchProduct toLowerCase (Master.products info) (Ocr.description o))
    as [[bm s]|]; repeat split.
Qed.

Lemma mapOcrItemsFrom_length info k l :
  length (mapOcrItemsFrom toLowerCase clock info k l) = length l.
Proof. revert k. induction l; simpl; auto. Qed.

Lemma mapOcrItemsFrom_nth info l : forall k i,
  nth_error (mapOcrItemsFrom toLowerCase clock info k l) i
    = option_map (mapOcrItem toLowerCase clock info (k + i)) (nth_error l i).
Proof.
  induction l as [|o l IH]; intros k [|i]; simpl; auto.
  - now rewrite Nat.add_0_r.
  - rewrite IH. now rewrite Nat.add_succ_r.
Qed.

Lemma mapOcrItemsFrom_ids info l : forall k x,
  In x (map id (mapOcrItemsFrom toLowerCase clock info k l)) ->
  exists j, k <= j /\ x = ocrItemId clock j.
Proof.
  induction l as [|o l IH]; intros k x; simpl; [contradiction|].
  intros [<-|H].
  - exists k. split; [lia|]. apply (mapOcrItem_fields info k o).
  - destruct (IH (S k) x H) as (j & Hj & ->). exists j. split; [lia|auto].
Qed.

Lemma mapOcrItemsFrom_nodup info l : forall k,
  NoDup (map id (mapOcrItemsFrom toLowerCase clock info k l)).
Proof.
  induction l as [|o l IH]; intros k; simpl; constructor; auto.
  intros H. destruct (mapOcrItemsFrom_ids info l (S k) _ H) as (j & Hj & Heq).
  destruct (mapOcrItem_fields info k o) as [Hid _]. rewrite Hid in Heq.
  apply stamped_id_inj in Heq. lia.
Qed.

Lemma mapOcrItem_product (info : option Master.SupplierInfo) (i : nat)
    (o : Ocr.OcrItem) :
  let it := mapOcrItem toLowerCase clock info i o in
  (productCode it = [] /\ productName it = js "N/A" /\ matchScore it = Some 0%Q)
  \/ exists inf p s, info = Some inf /\ In p (Master.products inf) /\
       productCode it = Master.productCode p /\
       productName it = Master.productName p /\ matchScore it = Some s /\
       (1 # 2 < s)%Q /\ (s <= 1)%Q /\
       s = candidateScore toLowerCase levenshteinDistance
             (toLowerCase (ocrDescription it)) Master.productName p.
Proof.
  unfold mapOcrItem. destruct info as [inf|]; [|left; repeat split].
  destruct (matchProduct toLowerCase (Master.products inf) (Ocr.description o))
    as [[bm s]|] eqn:Hm; [|left; repeat split].
  right. unfold matchProduct, findBestMatch in Hm.
  destruct (findBestMatchWith_some _ _ _ _ _ _ _ _ Hm)
    as (_ & _ & Hs & j & Hj & Hsc & _ & _).
  exists inf, bm, s. repeat split; auto.
  - eapply nth_error_In. exact Hj.
  - rewrite Hsc. apply candidateScore_le_1.
Qed.

Lemma mapOcrItemsFrom_products info l : forall k it,
  In it (mapOcrItemsFrom toLowerCase clock info k l) ->
  (productCode it = [] /\ productName it = js "N/A" /\ matchScore it = Some 0%Q)
  \/ exists inf p s, info = Some inf /\ In p (Master.products inf) /\
       productCode it = Master.productCode p /\
       productName it = Master.productName p /\ matchScore it = Some s /\
       (1 # 2 < s)%Q /\ (s <= 1)%Q /\
       s = candidateScore toLowerCase levenshteinDistance
             (toLowerCase (ocrDescription it)) Master.productName p.
Proof.
  induction l as [|o l IH]; intros k it; simpl; [contradiction|].
  intros [<-|H]; [apply mapOcrItem_product|eauto].
Qed.

End MappingProofs.

(** X1: the supplier of an invoice is the first key of the master database,
    in insertion order, that equals the OCR CUIT once the dashes are removed
    from both (an absent CUIT reads as the empty string); no supplier is
    identified when no key matches. *)
Theorem identifySupplier_first_match (masterData : Master.MasterDatabase)
    (ocrCuit : option str) :
  let normalizedCuit :=
    stripDashes (match ocrCuit with Some c => c | None => [] end) in
  match identifySupplier masterData ocrCuit with
  | Some k => exists pre info post,
      masterData = pre ++ (k, info) :: post /\
      stripDashes k = normalizedCuit /\
      Forall (fun e => stripDashes (fst e) <> normalizedCuit) pre
  | None => Forall (fun e => stripDashes (fst e) <> normalizedCuit) masterData
  end.
Proof. apply findSupplierKey_spec. Qed.

(** X2: the mapped invoice has one line item per OCR item, in order, each
    carrying the OCR description, quantity, unit price and total; an absent
    item list gives no items. *)
Theorem mapOcrData_copies_items (toLowerCase : str -> str) (clock : nat -> N)
    (masterData : Master.MasterDatabase) (ocrData : OcrData) :
  let ocr := match ocrItems ocrData with Some l => l | None => [] end in
  let r := mapOcrData toLowerCase clock masterData ocrData in
  length (items r) = length ocr /\
  forall i o, nth_error ocr i = Some o ->
  exists it, nth_error (items r) i = Some it /\
    ocrDescription it = Ocr.description o /\ ocrQuantity it = Ocr.quantity o /\
    ocrUnitPrice it = Ocr.unitPrice o /\ quantity it = Ocr.quantity o /\
    unitPrice it = Ocr.unitPrice o /\ total it = Ocr.total o.
Proof.
  intros ocr r. unfold r, mapOcrData. cbn [items]. split.
  - apply mapOcrItemsFrom_length.
  - intros i o Ho. rewrite mapOcrItemsFrom_nth. fold ocr. rewrite Ho.
    eexists. split; [reflexivity|].
    destruct (mapOcrItem_fields toLowerCase clock
                (supplierInfoFor masterData
                   (identifySupplier masterData (cuit (ocrHeader ocrData))))
                (0 + i) o) as (_ & H).
    exact H.
Qed.

(** X3: the line items of a mapped invoice have pairwise distinct ids,
    whatever values [Date.now()] returns while they are built. *)
Theorem mapOcrData_ids_distinct (toLowerCase : str -> str) (clock : nat -> N)
    (masterData : Master.MasterDatabase) (ocrData : OcrData) :
  NoDup (map id (items (mapOcrData toLowerCase clock masterData ocrData))).
Proof. apply mapOcrItemsFrom_nodup. Qed.

(** X4: every mapped line item either keeps the defaults (code '', name
    'N/A', score 0) or carries the code and name of a catalogue product of
    the identified supplier, with the similarity of its description to that
    product's name as score, in (0.5, 1]. *)
Theorem mapOcrData_item_products (toLowerCase : str -> str) (clock : nat -> N)
    (masterData : Master.MasterDatabase) (ocrData : OcrData) (it : LineItem) :
  In it (items (mapOcrData toLowerCase clock masterData ocrData)) ->
  (productCode it = [] /\ productName it = js "N/A" /\ matchScore it = Some 0%Q)
  \/ exists info p s,
       supplierInfoFor masterData
         (identifiedSupplierCuit (mapOcrData toLowerCase clock masterData ocrData))
         = Some info /\
       In p (Master.products info) /\
       productCode it = Master.productCode p /\
       productName it = Master.productName p /\ matchScore it = Some s /\
       (1 # 2 < s)%Q /\ (s <= 1)%Q /\
       s = candidateScore toLowerCase levenshteinDistance
             (toLowerCase (ocrDescription it)) Master.productName p.
Proof.
  unfold mapOcrData. cbn [items identifiedSupplierCuit].
  apply mapOcrItemsFrom_products.
Qed.

Lemma mapOcrData_copies_items_witness :
  exists it, nth_error (items (mapOcrData asciiToLowerCase demoClock demoMaster demoOcr)) 1
               = Some it /\
    ocrDescription it = js "Cheese" /\ ocrQuantity it = 1%Q /\
    ocrUnitPrice it = 10%Q /\ quantity it = 1%Q /\
    unitPrice it = 10%Q /\ total it = 10%Q.
Proof.
  apply (proj2 (mapOcrData_copies_items asciiToLowerCase demoClock demoMaster
                  demoOcr) 1
           {| Ocr.description := js "Cheese"; Ocr.quantity := 1;
              Ocr.unitPrice := 10; Ocr.total := 10 |}).
  reflexivity.
Defined.

Lemma mapOcrData_item_products_witness :
  exists it, In it (items (mapOcrData asciiToLowerCase demoClock demoMaster demoOcr))
  /\ ((productCode it = [] /\ productName it = js "N/A" /\
       matchScore it = Some 0%Q)
      \/ exists info p s,
         supplierInfoFor demoMaster
           (identifiedSupplierCuit
              (mapOcrData asciiToLowerCase demoClock demoMaster demoOcr))
           = Some info /\
         In p (Master.products info) /\
         productCode it = Master.productCode p /\
         productName it = Master.productName p /\ matchScore it = Some s /\
         (1 # 2 < s)%Q /\ (s <= 1)%Q /\
         s = candidateScore asciiToLowerCase levenshteinDistance
               (asciiToLowerCase (ocrDescription it)) Master.productName p).
Proof.
  eexists. split.
  - vm_compute. left. reflexivity.
  - apply (mapOcrData_item_products asciiToLowerCase demoClock demoMaster demoOcr).
    vm_compute. left. reflexivity.
Defined.

(** ** The review form *)

Lemma find_first {A : Type} (f : A -> bool) (l : list A) (i : nat) (y : A) :
  nth_error l i = Some y -> f y = true ->
  (forall j z, j < i -> nth_error l j = Some z -> f z = false) ->
  find f l = Some y.
Proof.
  revert i. induction l as [|x l IH]; intros [|i]; simpl; try discriminate.
  - intros [= ->] -> _. reflexivity.
  - intros Hi Hy Hbefore. rewrite (Hbefore 0 x); [|lia|reflexivity].
    apply (IH i); auto. intros j z Hj Hz. apply (Hbefore (S j)); [lia|exact Hz].
Qed.

Lemma find_none {A : Type} (f : A -> bool) (l : list A) :
  (forall x, In x l -> f x = false) -> find f l = None.
Proof.
  induction l as [|x l IH]; simpl; intros H; auto.
  rewrite H by auto. apply IH. auto.
Qed.

Lemma findIndex_ge (A : Type) (f : A -> bool) (l : list A) : (-1 <= findIndex f l)%Z.
Proof.
  induction l as [|x l IH]; simpl; [lia|].
  destruct (f x); [lia|]. destruct (Z.ltb_spec (findIndex f l) 0); lia.
Qed.

Lemma findIndex_spec {A : Type} (f : A -> bool) (l : list A) (i : nat) :
  findIndex f l = Z.of_nat i ->
  exists y, nth_error l i = Some y /\ f y = true /\
    forall j z, j < i -> nth_error l j = Some z -> f z = false.
Proof.
  revert i. induction l as [|x l IH]; intros i; simpl; [lia|].
  destruct (f x) eqn:Hx.
  - intros H. assert (i = 0) as -> by lia. exists x. repeat split; auto.
    intros j z Hj. lia.
  - destruct (Z.ltb_spec (findIndex f l) 0) as [Hn|Hn]; [lia|].
    intros H. destruct i as [|i]; [lia|].
    destruct (IH i) as (y & Hy & Hfy & Hbefore); [lia|].
    exists y. repeat split; auto.
    intros [|j] z Hj Hz; simpl in Hz; [congruence|].
    apply (Hbefore j); [lia|exact Hz].
Qed.

Lemma findIndex_found {A : Type} (f : A -> bool) (l : list A) (x : A) :
  In x l -> f x = true -> exists i, findIndex f l = Z.of_nat i.
Proof.
  induction l as [|y l IH]; simpl; [contradiction|].
  intros [->|Hx] Hf.
  - rewrite Hf. exists 0. reflexivity.
  - destruct (f y); [exists 0; reflexivity|].
    destruct (IH Hx Hf) as [i Hi]. rewrite Hi.
    destruct (Z.ltb_spec (Z.of_nat i) 0); [lia|]. exists (S i). lia.
Qed.

Lemma filterIndexed_In {A : Type} (f : A -> nat -> bool) (l : list A) :
  forall k x, In x (filterIndexed f k l) <->
    exists i, nth_error l i = Some x /\ f x (k + i) = true.
Proof.
  induction l as [|y l IH]; intros k x; simpl.
  - split; [contradiction|]. intros (i & Hi & _). destruct i; discriminate.
  - destruct (f y k) eqn:Hy; [simpl|]; rewrite ?IH; split.
    + intros [<-|(i & Hi & Hf)]; [exists 0; rewrite Nat.add_0_r; auto|].
      exists (S i). rewrite Nat.add_succ_r. auto.
    + intros ([|i] & Hi & Hf); simpl in Hi; [left; congruence|].
      right. exists i. rewrite Nat.add_succ_r in Hf. auto.
    + intros (i & Hi & Hf). exists (S i). rewrite Nat.add_succ_r. auto.
    + intros ([|i] & Hi & Hf); simpl in Hi.
      * injection Hi as <-. rewrite Nat.add_0_r in Hf. congruence.
      * exists i. rewrite Nat.add_succ_r in Hf. auto.
Qed.

Lemma filterIndexed_nodup {A : Type} (key : A -> str) (f : A -> nat -> bool)
    (l : list A) : forall k,
  (forall i1 i2 x1 x2, nth_error l i1 = Some x1 -> nth_error l i2 = Some x2 ->
     f x1 (k + i1) = true -> f x2 (k + i2) = true -> key x1 = key x2 -> i1 = i2) ->
  NoDup (map key (filterIndexed f k l)).
Proof.
  induction l as [|y l IH]; intros k H; simpl; [constructor|].
  assert (Hl : forall i1 i2 x1 x2, nth_error l i1 = Some x1 ->
            nth_error l i2 = Some x2 -> f x1 (S k + i1) = true ->
            f x2 (S k + i2) = true -> key x1 = key x2 -> i1 = i2).
  { intros i1 i2 x1 x2 H1 H2 F1 F2 E.
    assert (S i1 = S i2) by
      (apply (H (S i1) (S i2) x1 x2); auto; rewrite Nat.add_succ_r; auto).
    lia. }
  destruct (f y k) eqn:Hy; simpl; [constructor|]; auto.
  intros Hin. apply in_map_iff in Hin as (z & Hz & Hzin).
  apply filterIndexed_In in Hzin as (i & Hi & Hf).
  assert (0 = S i); [|lia].
  apply (H 0 (S i) y z); auto; rewrite ?Nat.add_0_r, ?Nat.add_succ_r; auto.
Qed.

Section FormProofs.

Variable toLowerCase : str -> str.
Variable masterData : Master.MasterDatabase.

Lemma rematchItem_fields (c : list Master.CatalogProduct) (it : LineItem) :
  nonProductFields (rematchItem toLowerCase c it) = nonProductFields it.
Proof.
  unfold rematchItem.
  destruct (matchProduct toLowerCase c (ocrDescription it)) as [[bm s]|];
    reflexivity.
Qed.

Lemma withProduct_rematchItem (c : list Master.CatalogProduct) (it : LineItem)
    (a b : str) :
  withProduct (rematchItem toLowerCase c it) a b = withProduct it a b.
Proof.
  unfold rematchItem.
  destruct (matchProduct toLowerCase c (ocrDescription it)) as [[bm s]|];
    reflexivity.
Qed.

Lemma rematchItem_twice (c c' : list Master.CatalogProduct) (it : LineItem) :
  rematchItem toLowerCase c (rematchItem toLowerCase c' it)
    = rematchItem toLowerCase c it.
Proof.
  assert (Hd : ocrDescription (rematchItem toLowerCase c' it) = ocrDescription it)
    by (pose proof (rematchItem_fields c' it) as H; unfold nonProductFields in H;
        congruence).
  unfold rematchItem at 1. rewrite Hd.
  fold (rematchItem toLowerCase c it).
  unfold rematchItem.
  destruct (matchProduct toLowerCase c (ocrDescription it)) as [[bm s]|];
    apply withProduct_rematchItem.
Qed.


(** An item without OCR description is matched to nothing. *)
Lemma rematchItem_empty (c : list Master.CatalogProduct) (it : LineItem) :
  ocrDescription it = [] ->
  rematchItem toLowerCase c it = withProduct it [] (js "N/A").
Proof.
  intros H. unfold rematchItem, matchProduct, findBestMatch, findBestMatchWith.
  rewrite H. reflexivity.
Qed.

Lemma preloadFrom_fields (clock : nat -> N) (ps : list Master.CatalogProduct) :
  forall k it, In it (preloadFrom clock k ps) ->
    ocrDescription it = [] /\ matchScore it = None.
Proof.
  induction ps as [|p ps IH]; intros k it; simpl; [contradiction|].
  intros [<-|H]; [split; reflexivity|eauto].
Qed.

Lemma preloadFrom_products (clock : nat -> N) (ps : list Master.CatalogProduct) :
  forall k, map (fun it => (productCode it, productName it)) (preloadFrom clock k ps)
    = map (fun p => (Master.productCode p, Master.productName p)) ps.
Proof. induction ps as [|p ps IH]; intros k; simpl; f_equal; auto. Qed.

Lemma preloadFrom_ids (clock : nat -> N) (ps : list Master.CatalogProduct) :
  forall k x, In x (map id (preloadFrom clock k ps)) ->
  exists j, k <= j /\
    x = js "item-preloaded-" ++ decimal (clock j) ++ js "-" ++ decimal (N.of_nat j).
Proof.
  induction ps as [|p ps IH]; intros k x; simpl; [contradiction|].
  intros [<-|H].
  - exists k. split; [lia|reflexivity].
  - destruct (IH (S k) x H) as (j & Hj & ->). exists j. split; [lia|auto].
Qed.

Lemma preloadFrom_nodup (clock : nat -> N) (ps : list Master.CatalogProduct) :
  forall k, NoDup (map id (preloadFrom clock k ps)).
Proof.
  induction ps as [|p ps IH]; intros k; simpl; constructor; auto.
  intros H. destruct (preloadFrom_ids clock ps (S k) _ H) as (j & Hj & Heq).
  apply (stamped_id_inj (js "item-preloaded-") (clock k) (clock j)) in Heq.
  lia.
Qed.

Lemma getPreloadedItems_fields (clock : nat -> N) (k : str) (it : LineItem) :
  In it (getPreloadedItems masterData clock k) ->
  ocrDescription it = [] /\ matchScore it = None.
Proof.
  unfold getPreloadedItems. destruct (Master.get masterData k); [|contradiction].
  apply preloadFrom_fields.
Qed.

(** The catalogue list of [handleProductChange] and of the rendered form. *)
Lemma supplierProductsOf_identified (d : InvoiceData) :
  supplierProductsOf masterData d = Some (identifiedProducts masterData d) \/
  (supplierProductsOf masterData d = None /\ identifiedProducts masterData d = []).
Proof.
  unfold supplierProductsOf, identifiedProducts.
  destruct (identifiedSupplierCuit d) as [[|c k]|]; auto.
  destruct (Master.get masterData (c :: k)); auto.
Qed.

End FormProofs.

(** Each product kept by [uniqueByName] is the first of its name. *)
Lemma uniqueByName_first (self : list Master.CatalogProduct) (q : Master.CatalogProduct) :
  In q (uniqueByName self) ->
  find (fun p => str_eqb (Master.productName p) (Master.productName q)) self = Some q.
Proof.
  unfold uniqueByName. intros Hq.
  apply filterIndexed_In in Hq as (i & Hi & Hf). simpl in Hf.
  apply Z.eqb_eq in Hf. symmetry in Hf.
  destruct (findIndex_spec _ _ _ Hf) as (y & Hy & Hfy & Hbefore).
  rewrite Hi in Hy. injection Hy as <-.
  apply (find_first _ _ i); auto.
Qed.

Lemma filter_all {A : Type} (f : A -> bool) (l : list A) :
  (forall x, In x l -> f x = true) -> filter f l = l.
Proof.
  induction l as [|x l IH]; simpl; intros H; auto.
  rewrite H by auto. f_equal. auto.
Qed.


(** X6: choosing a known supplier gives the same form whatever supplier was
    chosen before: the earlier re-matching leaves no trace. *)
Theorem handleSupplierChange_overrides (toLowerCase : str -> str)
    (masterData : Master.MasterDatabase) (k1 k2 : str) (s : InvoiceData) :
  Master.get masterData k2 <> None ->
  handleSupplierChange toLowerCase masterData k2
    (handleSupplierChange toLowerCase masterData k1 s)
  = handleSupplierChange toLowerCase masterData k2 s.
Proof.
  intros H. unfold handleSupplierChange.
  destruct (Master.get masterData k2) as [i2|]; [|contradiction].
  destruct (Master.get masterData k1) as [i1|]; [|reflexivity].
  cbn [header items originalItems]. f_equal.
  rewrite map_map. apply map_ext. intros it. apply rematchItem_twice.
Qed.

(** X7: choosing a supplier while the preloaded catalogue is shown turns
    the flag off but keeps the backup of the OCR items, and every item
    becomes ('', 'N/A'): the preloaded items have no OCR description to
    match. *)
Theorem handlePreloadToggle_then_supplierChange (toLowerCase : str -> str)
    (masterData : Master.MasterDatabase) (clock : nat -> N) (k : str)
    (s : InvoiceData) :
  strTruthy (identifiedSupplierCuit s) = true ->
  Master.get masterData k <> None ->
  let d := handleSupplierChange toLowerCase masterData k
             (handlePreloadToggle masterData clock true s) in
  usePreloadedCatalog d = false /\ originalItems d = Some (items s) /\
  Forall (fun it => productCode it = [] /\ productName it = js "N/A") (items d).
Proof.
  intros Ht Hk d. unfold d, handleSupplierChange.
  destruct (Master.get masterData k) as [info|]; [|contradiction].
  unfold handlePreloadToggle.
  destruct (identifiedSupplierCuit s) as [[|c k0]|]; try discriminate Ht.
  cbn [usePreloadedCatalog originalItems items]. repeat split.
  apply Forall_forall. intros it Hit.
  apply in_map_iff in Hit as (it0 & <- & Hin).
  destruct (getPreloadedItems_fields masterData clock _ it0 Hin) as [Hd _].
  rewrite rematchItem_empty by exact Hd. split; reflexivity.
Qed.

(** X8: with an identified supplier, turning the preloaded catalogue on and
    then off restores the items shown before, clears the backup and leaves
    the rest of the form as it was. *)
Theorem handlePreloadToggle_round_trip (masterData : Master.MasterDatabase)
    (clock clock' : nat -> N) (s : InvoiceData) :
  strTruthy (identifiedSupplierCuit s) = true ->
  handlePreloadToggle masterData clock' false
    (handlePreloadToggle masterData clock true s)
  = {| header := header s; identifiedSupplierCuit := identifiedSupplierCuit s;
       usePreloadedCatalog := false; items := items s; originalItems := None |}.
Proof.
  intros Ht. unfold handlePreloadToggle.
  destruct (identifiedSupplierCuit s) as [[|c k]|]; try discriminate Ht.
  reflexivity.
Qed.

(** X9: the preloaded catalogue has one item per product of the supplier,
    in catalogue order, with its code and name, with pairwise distinct ids
    whatever [Date.now()] returns, and with no OCR description and no match
    score; an unknown CUIT gives no items. *)
Theorem getPreloadedItems_catalog (masterData : Master.MasterDatabase)
    (clock : nat -> N) (supplierCuit : str) :
  let l := getPreloadedItems masterData clock supplierCuit in
  map (fun it => (productCode it, productName it)) l
    = map (fun p => (Master.productCode p, Master.productName p))
          (match Master.get masterData supplierCuit with
           | Some info => Master.products info
           | None => []
           end) /\
  NoDup (map id l) /\
  Forall (fun it => ocrDescription it = [] /\ matchScore it = None) l.
Proof.
  intros l. unfold l, getPreloadedItems.
  destruct (Master.get masterData supplierCuit) as [info|];
    [|repeat constructor].
  split; [apply preloadFrom_products|split; [apply preloadFrom_nodup|]].
  apply Forall_forall. apply preloadFrom_fields.
Qed.

(** X10: picking a product name that no product of the identified supplier
    has (or with no identified supplier, any name) leaves the form
    unchanged. *)
Theorem handleProductChange_unknown_name (masterData : Master.MasterDatabase)
    (itemId selectedProductName : str) (s : InvoiceData) :
  (forall p, In p (identifiedProducts masterData s) ->
     Master.productName p <> selectedProductName) ->
  handleProductChange masterData itemId selectedProductName s = s.
Proof.
  intros H. unfold handleProductChange.
  destruct (supplierProductsOf_identified masterData s) as [E|[E _]];
    rewrite E; [|reflexivity].
  rewrite find_none; [reflexivity|].
  intros p Hp. apply str_eqb_neq. auto.
Qed.

(** X11: picking an entry of the product list of the form sets exactly the
    items with the given id to that entry's code and name, and changes
    nothing else. *)
Theorem handleProductChange_listed (masterData : Master.MasterDatabase)
    (itemId : str) (q : Master.CatalogProduct) (s : InvoiceData) :
  In q (uniqueByName (identifiedProducts masterData s)) ->
  handleProductChange masterData itemId (Master.productName q) s
  = withItems s (map (fun it => if str_eqb (id it) itemId
                                then withProduct it (Master.productCode q)
                                                    (Master.productName q)
                                else it) (items s)).
Proof.
  intros Hq. unfold handleProductChange.
  destruct (supplierProductsOf_identified masterData s) as [E|[E E']].
  - rewrite E, (uniqueByName_first _ _ Hq). reflexivity.
  - rewrite E' in Hq. contradiction.
Qed.

(** X12: the product list of the form has no two entries with the same
    name, lists every name of the catalogue, and each entry is the first
    catalogue product of its name. *)
Theorem uniqueByName_spec (self : list Master.CatalogProduct) :
  NoDup (map Master.productName (uniqueByName self)) /\
  (forall p, In p self -> exists q, In q (uniqueByName self) /\
     Master.productName q = Master.productName p) /\
  (forall q, In q (uniqueByName self) ->
     find (fun p => str_eqb (Master.productName p) (Master.productName q)) self
       = Some q).
Proof.
  split; [|split].
  - unfold uniqueByName. apply filterIndexed_nodup.
    intros i1 i2 x1 x2 _ _ F1 F2 E. simpl in F1, F2.
    apply Z.eqb_eq in F1, F2. rewrite E in F1. lia.
  - intros p Hp.
    destruct (findIndex_found (fun p' => str_eqb (Master.productName p')
                                                 (Master.productName p))
                self p Hp (str_eqb_refl _)) as [i Hi].
    destruct (findIndex_spec _ _ _ Hi) as (y & Hy & Hfy & _).
    apply str_eqb_eq in Hfy.
    exists y. split; [|exact Hfy].
    unfold uniqueByName. apply filterIndexed_In. exists i. split; [exact Hy|].
    simpl. rewrite Hfy, Hi. apply Z.eqb_refl.
  - apply uniqueByName_first.
Qed.

(** X13: removing the item that [addNewItem] just appended gives back the
    form, provided no earlier item has the same id (two items added in the
    same millisecond share their id and are removed together). *)
Theorem removeItem_addNewItem (now : N) (s : InvoiceData) :
  ~ In (id (newManualItem now)) (map id (items s)) ->
  removeItem (id (newManualItem now)) (addNewItem now s) = s.
Proof.
  intros H. unfold removeItem, addNewItem, withItems.
  cbn [items header identifiedSupplierCuit usePreloadedCatalog originalItems].
  rewrite filter_app. simpl. rewrite str_eqb_refl. simpl.
  rewrite app_nil_r, filter_all; [destruct s; reflexivity|].
  intros x Hx. apply negb_true_iff, str_eqb_neq. intros Hid.
  apply H, in_map_iff. exists x. split; [exact Hid|exact Hx].
Qed.

Lemma handleSupplierChange_overrides_witness :
  Master.get demoMaster (js "20-12345678-9") <> None /\
  handleSupplierChange asciiToLowerCase demoMaster (js "20-12345678-9")
    (handleSupplierChange asciiToLowerCase demoMaster (js "30-71234567-8") demoForm)
  = handleSupplierChange asciiToLowerCase demoMaster (js "20-12345678-9") demoForm.
Proof.
  split; [vm_compute; discriminate|].
  apply handleSupplierChange_overrides. vm_compute. discriminate.
Defined.

Lemma handlePreloadToggle_then_supplierChange_witness :
  strTruthy (identifiedSupplierCuit demoForm) = true /\
  Master.get demoMaster (js "20-12345678-9") <> None /\
  let d := handleSupplierChange asciiToLowerCase demoMaster (js "20-12345678-9")
             (handlePreloadToggle demoMaster demoClock true demoForm) in
  usePreloadedCatalog d = false /\ originalItems d = Some (items demoForm) /\
  Forall (fun it => productCode it = [] /\ productName it = js "N/A") (items d).
Proof.
  split; [vm_compute; reflexivity|].
  split; [vm_compute; discriminate|].
  apply handlePreloadToggle_then_supplierChange;
    [vm_compute; reflexivity|vm_compute; discriminate].
Defined.

Lemma handlePreloadToggle_round_trip_witness :
  strTruthy (identifiedSupplierCuit demoForm) = true /\
  handlePreloadToggle demoMaster demoClock false
    (handlePreloadToggle demoMaster demoClock true demoForm)
  = {| header := header demoForm;
       identifiedSupplierCuit := identifiedSupplierCuit demoForm;
       usePreloadedCatalog := false; items := items demoForm;
       originalItems := None |}.
Proof.
  split; [vm_compute; reflexivity|].
  apply handlePreloadToggle_round_trip. vm_compute. reflexivity.
Defined.

Lemma handleProductChange_unknown_name_witness :
  handleProductChange demoMaster (js "item-1715000000000-1") (js "Cheese") demoForm
  = demoForm.
Proof.
  apply handleProductChange_unknown_name.
  intros p Hp. vm_compute in Hp.
  destruct Hp as [<-|[<-|[]]]; vm_compute; discriminate.
Defined.

Lemma handleProductChange_listed_witness :
  In {| Master.productCode := js "P002"; Master.productName := js "Fresh Bananas" |}
     (uniqueByName (identifiedProducts demoMaster demoForm)) /\
  handleProductChange demoMaster (js "item-1715000000000-1") (js "Fresh Bananas")
    demoForm
  = withItems demoForm
      (map (fun it => if str_eqb (id it) (js "item-1715000000000-1")
                      then withProduct it (js "P002") (js "Fresh Bananas")
                      else it) (items demoForm)).
Proof.
  split; [vm_compute; right; left; reflexivity|].
  apply (handleProductChange_listed demoMaster (js "item-1715000000000-1")
           {| Master.productCode := js "P002";
              Master.productName := js "Fresh Bananas" |}).
  vm_compute. right. left. reflexivity.
Defined.

Lemma removeItem_addNewItem_witness :
  ~ In (id (newManualItem 1715000000001%N)) (map id (items demoForm)) /\
  removeItem (id (newManualItem 1715000000001%N))
    (addNewItem 1715000000001%N demoForm) = demoForm.
Proof.
  split; [vm_compute; intros [H|[H|[]]]; discriminate H|].
  apply removeItem_addNewItem.
  vm_compute. intros [H|[H|[]]]; discriminate H.
Defined.

(** ** Batches and uploads *)

Section ChunkProofs.

Context {T R : Type}.
Variable processor : T -> R.

Lemma chunkLoop_ends (items : list T) (chunkSize : nat) :
  1 <= chunkSize -> forall fuel i results,
  length items - i < fuel ->
  chunkLoop processor fuel items chunkSize i results
    = Some (results ++ map processor (skipn i items)).
Proof.
  intros Hk fuel. induction fuel as [|fuel IH]; intros i results Hf; [lia|].
  simpl. destruct (Nat.ltb_spec i (length items)) as [Hi|Hi].
  - rewrite IH by lia. f_equal. rewrite <- app_assoc, <- map_app. f_equal.
    f_equal. rewrite Nat.add_comm, <- skipn_skipn. apply firstn_skipn.
  - rewrite skipn_all2 by lia. simpl. now rewrite app_nil_r.
Qed.

Lemma chunkLoop_zero (items : list T) :
  items <> [] -> forall fuel results,
  chunkLoop processor fuel items 0 0 results = None.
Proof.
  intros Hne fuel. induction fuel as [|fuel IH]; intros results; [reflexivity|].
  simpl. destruct items as [|x items]; [contradiction|]. simpl.
  apply IH.
Qed.

End ChunkProofs.

(** X14: for a chunk size of at least 1, [processInChunks] ends (after at
    most [items.length + 1] checks of its loop condition) and returns the
    results of [processor] on every item, in the order of the items,
    whatever the chunk size. *)
Theorem processInChunks_map {T R : Type} (processor : T -> R) (items : list T)
    (chunkSize fuel : nat) :
  1 <= chunkSize -> length items < fuel ->
  processInChunks processor fuel items chunkSize = Some (map processor items).
Proof.
  intros Hk Hf. unfold processInChunks.
  rewrite (chunkLoop_ends processor items chunkSize Hk) by lia.
  reflexivity.
Qed.

(** X15: with a chunk size of 0 and at least one item, the loop of
    [processInChunks] never ends: [i] stays 0. *)
Theorem processInChunks_zero_diverges {T R : Type} (processor : T -> R)
    (items : list T) (fuel : nat) :
  items <> [] -> processInChunks processor fuel items 0 = None.
Proof. intros Hne. apply chunkLoop_zero. exact Hne. Qed.

Section UploadProofs.

Context {File : Type}.
Variable fileName : File -> str.
Variable processSingleFile : File -> OcrData + str.
Variable toLowerCase : str -> str.
Variable clock : File -> nat -> N.
Variable db : Master.MasterDatabase.








End UploadProofs.


(** ** Loading the master data *)

Module CsvProofs.

Import Csv.

Lemma has_cons (k0 : str) (v0 : CsvSupplier) (db : CsvDatabase) (k : str) :
  has ((k0, v0) :: db) k = str_eqb k0 k || has db k.
Proof. unfold has. cbn [Master.get]. destruct (str_eqb k0 k); reflexivity. Qed.

Lemma has_false_keys (db : CsvDatabase) (k : str) :
  has db k = false -> ~ In k (map fst db).
Proof.
  induction db as [|[k0 v0] db IH]; simpl; [auto|].
  rewrite has_cons. intros H [E|Hin].
  - subst k0. rewrite str_eqb_refl in H. discriminate.
  - apply orb_false_iff in H as [_ H]. exact (IH H Hin).
Qed.

Lemma get_set_new (db : CsvDatabase) (k k' : str) (v : CsvSupplier) :
  has db k = false ->
  Master.get (set db k v) k' = if str_eqb k k' then Some v else Master.get db k'.
Proof.
  induction db as [|[k0 v0] db IH]; simpl; intros H.
  - destruct (str_eqb k k'); reflexivity.
  - rewrite has_cons in H. apply orb_false_iff in H as [H0 H].
    rewrite H0. simpl. rewrite IH by exact H.
    destruct (str_eqb k0 k') eqn:E0; [|reflexivity].
    apply str_eqb_eq in E0. subst k'.
    destruct (str_eqb k k0) eqn:E; [|reflexivity].
    apply str_eqb_eq in E. subst. rewrite str_eqb_refl in H0. discriminate.
Qed.

Lemma get_push (db : CsvDatabase) (k k' : str) (p : CsvProduct) :
  Master.get (pushProduct db k p) k'
  = if str_eqb k k' then option_map (fun v => withPushed v p) (Master.get db k')
    else Master.get db k'.
Proof.
  induction db as [|[k0 v0] db IH]; simpl.
  - destruct (str_eqb k k'); reflexivity.
  - destruct (str_eqb k0 k) eqn:E; simpl.
    + apply str_eqb_eq in E. subst k0.
      destruct (str_eqb k k'); reflexivity.
    + rewrite IH. destruct (str_eqb k0 k') eqn:E'; [|reflexivity].
      apply str_eqb_eq in E'. subst k'.
      destruct (str_eqb k k0) eqn:E2; [|reflexivity].
      apply str_eqb_eq in E2. subst. rewrite str_eqb_refl in E. discriminate.
Qed.

Lemma keys_set_new (db : CsvDatabase) (k : str) (v : CsvSupplier) :
  has db k = false -> map fst (set db k v) = map fst db ++ [k].
Proof.
  induction db as [|[k0 v0] db IH]; simpl; intros H; [reflexivity|].
  rewrite has_cons in H. apply orb_false_iff in H as [H0 H].
  rewrite H0. simpl. f_equal. auto.
Qed.

Lemma keys_push (db : CsvDatabase) (k : str) (p : CsvProduct) :
  map fst (pushProduct db k p) = map fst db.
Proof.
  induction db as [|[k0 v0] db IH]; simpl; [reflexivity|].
  destruct (str_eqb k0 k); simpl; f_equal; auto.
Qed.

Lemma dbStep_eq (db : CsvDatabase) (d : Entry) :
  dbStep db d =
  match rowCuit d with
  | Some cuit =>
      pushProduct (if has db cuit then db else set db cuit (rowSupplier d []))
        cuit (rowProduct d)
  | None => db
  end.
Proof.
  unfold dbStep, rowCuit. destruct (objGet d (js "CUIT")) as [[|c l]|]; reflexivity.
Qed.

Lemma rowCuit_nonempty (d : Entry) (c : str) : rowCuit d = Some c -> c <> [].
Proof.
  unfold rowCuit. destruct (objGet d (js "CUIT")) as [[|x l]|]; try discriminate.
  intros [= <-]. discriminate.
Qed.

Lemma dbStep_keys (db : CsvDatabase) (d : Entry) :
  NoDup (map fst db) -> Forall (fun e => fst e <> []) db ->
  NoDup (map fst (dbStep db d)) /\ Forall (fun e => fst e <> []) (dbStep db d).
Proof.
  intros Hnd Hne. rewrite dbStep_eq.
  destruct (rowCuit d) as [c|] eqn:Hc; [|auto].
  rewrite keys_push. split.
  - destruct (has db c) eqn:Hh; [exact Hnd|].
    rewrite keys_set_new by exact Hh.
    apply NoDup_app; auto using NoDup_cons, NoDup_nil.
    intros x Hx [<-|[]]. exact (has_false_keys db c Hh Hx).
  - apply Forall_forall. intros [k v] Hin. simpl.
    assert (Hk : In k (map fst (pushProduct (if has db c then db
                   else set db c (rowSupplier d [])) c (rowProduct d))))
      by (apply in_map_iff; exists (k, v); auto).
    rewrite keys_push in Hk.
    destruct (has db c) eqn:Hh.
    + apply in_map_iff in Hk as ([k' v'] & <- & Hk). simpl.
      rewrite Forall_forall in Hne. exact (Hne _ Hk).
    + rewrite keys_set_new in Hk by exact Hh.
      apply in_app_or in Hk as [Hk|[<-|[]]].
      * apply in_map_iff in Hk as ([k' v'] & <- & Hk). simpl.
        rewrite Forall_forall in Hne. exact (Hne _ Hk).
      * exact (rowCuit_nonempty d c Hc).
Qed.

Lemma buildDatabase_keys_from (data : list Entry) : forall db,
  NoDup (map fst db) -> Forall (fun e => fst e <> []) db ->
  NoDup (map fst (fold_left dbStep data db)) /\
  Forall (fun e => fst e <> []) (fold_left dbStep data db).
Proof.
  induction data as [|d data IH]; simpl; intros db H1 H2; [auto|].
  destruct (dbStep_keys db d H1 H2). auto.
Qed.

Lemma has_get (db : CsvDatabase) (k : str) :
  has db k = match Master.get db k with Some _ => true | None => false end.
Proof. reflexivity. Qed.

Lemma rowsOf_snoc (data : list Entry) (d : Entry) (k : str) :
  rowsOf (data ++ [d]) k
  = rowsOf data k ++ (match rowCuit d with
                      | Some c => if str_eqb c k then [d] else []
                      | None => []
                      end).
Proof.
  unfold rowsOf. rewrite filter_app. f_equal. simpl.
  destruct (rowCuit d) as [c|]; [destruct (str_eqb c k)|]; reflexivity.
Qed.

(** The database groups the data rows by CUIT. *)
Lemma buildDatabase_get (data : list Entry) (k : str) :
  Master.get (buildDatabase data) k
  = match rowsOf data k with
    | [] => None
    | d0 :: _ => Some (rowSupplier d0 (map rowProduct (rowsOf data k)))
    end.
Proof.
  revert k. induction data as [|d data IH] using rev_ind; intros k; [reflexivity|].
  unfold buildDatabase in *. rewrite fold_left_app. simpl.
  rewrite dbStep_eq, rowsOf_snoc.
  destruct (rowCuit d) as [c|] eqn:Hc; [|rewrite app_nil_r; apply IH].
  rewrite get_push.
  destruct (str_eqb c k) eqn:Eck.
  - apply str_eqb_eq in Eck. subst c.
    destruct (has (fold_left dbStep data []) k) eqn:Hh.
    + rewrite has_get, IH in Hh. rewrite IH.
      destruct (rowsOf data k) as [|d0 r]; [discriminate|]. simpl. rewrite map_app. reflexivity.
    + rewrite get_set_new by exact Hh. rewrite str_eqb_refl.
      rewrite has_get, IH in Hh.
      destruct (rowsOf data k) as [|d0 r]; [reflexivity|discriminate].
  - rewrite app_nil_r.
    destruct (has (fold_left dbStep data []) c) eqn:Hh; [apply IH|].
    rewrite get_set_new by exact Hh. rewrite Eck. apply IH.
Qed.

Lemma splitLines_cons_plain (c : Z) (s : str) :
  (c =? 10)%Z = false -> (c =? 13)%Z = false ->
  splitLines (c :: s) = consHead c (splitLines s).
Proof.
  intros H10 H13. destruct s as [|d s]; simpl; rewrite H10; [reflexivity|].
  rewrite H13. reflexivity.
Qed.

Lemma splitLines_plain (l : str) :
  forallb (fun c => negb ((c =? 10) || (c =? 13))%Z) l = true ->
  splitLines l = [l] /\
  forall sep rest, (sep = [10%Z] \/ sep = [13%Z; 10%Z]) ->
    splitLines (l ++ sep ++ rest) = l :: splitLines rest.
Proof.
  induction l as [|c l IH]; intros H.
  - split; [reflexivity|]. intros sep rest [->| ->]; reflexivity.
  - simpl in H. apply andb_true_iff in H as [Hc H].
    apply negb_true_iff, orb_false_iff in Hc as [H10 H13].
    destruct (IH H) as [IH1 IH2]. split.
    + rewrite splitLines_cons_plain, IH1 by assumption. reflexivity.
    + intros sep rest Hsep. cbn [app].
      rewrite splitLines_cons_plain, IH2 by assumption. reflexivity.
Qed.

Lemma splitLines_join (sep : str) (lines : list str) :
  sep = [10%Z] \/ sep = [13%Z; 10%Z] ->
  plainLines lines = true -> lines <> [] ->
  splitLines (joinLines sep lines) = lines.
Proof.
  intros Hsep. induction lines as [|l lines IH]; intros Hp Hne; [contradiction|].
  unfold plainLines in Hp. simpl in Hp. apply andb_true_iff in Hp as [Hl Hp].
  assert (Hl' : forallb (fun c => negb ((c =? 10) || (c =? 13))%Z) l = true).
  { rewrite negb_true_iff in Hl. apply forallb_forall. intros c Hc.
    apply negb_true_iff. destruct (((c =? 10) || (c =? 13))%Z) eqn:E; [|reflexivity].
    rewrite <- Hl. symmetry. apply existsb_exists. eauto. }
  destruct (splitLines_plain l Hl') as [H1 H2].
  destruct lines as [|l2 lines]; [exact H1|].
  change (joinLines sep (l :: l2 :: lines)) with (l ++ sep ++ joinLines sep (l2 :: lines)).
  rewrite H2 by exact Hsep. f_equal. apply IH; [exact Hp|discriminate].
Qed.

Lemma csvRows_join (sep : str) (lines : list str) :
  sep = [10%Z] \/ sep = [13%Z; 10%Z] -> plainLines lines = true ->
  csvRows (joinLines sep lines)
  = filter (fun row => negb (str_eqb (trim row) [])) lines.
Proof.
  intros Hsep Hp. unfold csvRows. destruct lines as [|l lines]; [reflexivity|].
  rewrite splitLines_join; auto. discriminate.
Qed.

End CsvProofs.

(** X17: a master database loaded from a CSV file has distinct, non-empty
    CUIT keys and at least one supplier; the supplier of a CUIT carries the
    supplier code and name of the first data row with that CUIT and the
    products of all its rows, in file order; a CUIT with no row is absent. *)
Theorem parseCSV_groups_rows (csvText : str) (db : Csv.CsvDatabase) :
  Csv.parseCSV csvText = Csv.Parsed db ->
  NoDup (map fst db) /\ Forall (fun e => fst e <> []) db /\ db <> [] /\
  forall k,
    Master.get db k
    = match Csv.rowsOf (Csv.csvData (Csv.csvRows csvText)) k with
      | [] => None
      | d0 :: _ =>
          Some (Csv.rowSupplier d0
                  (map Csv.rowProduct (Csv.rowsOf (Csv.csvData (Csv.csvRows csvText)) k)))
      end.
Proof.
  unfold Csv.parseCSV.
  destruct (length (Csv.csvRows csvText) <? 2); [discriminate|].
  destruct (negb _); [discriminate|].
  destruct (Nat.eqb (length (Csv.buildDatabase (Csv.csvData (Csv.csvRows csvText)))) 0)
    eqn:Hz; [discriminate|].
  intros [= <-].
  destruct (CsvProofs.buildDatabase_keys_from (Csv.csvData (Csv.csvRows csvText)) []
              (NoDup_nil _) (Forall_nil _)) as [H1 H2].
  split; [exact H1|split; [exact H2|split]].
  - intros E. rewrite E in Hz. discriminate.
  - apply CsvProofs.buildDatabase_get.
Qed.

(** X18: a CSV file with Windows line endings (CR LF) loads exactly as the
    same file with Unix line endings (LF), when no line holds a CR or LF
    of its own. *)
Theorem parseCSV_line_endings (lines : list str) :
  Csv.plainLines lines = true ->
  Csv.parseCSV (Csv.joinLines [13%Z; 10%Z] lines)
  = Csv.parseCSV (Csv.joinLines [10%Z] lines).
Proof.
  intros Hp. unfold Csv.parseCSV.
  rewrite !CsvProofs.csvRows_join by auto. reflexivity.
Qed.

(** X19: blank lines (empty or made of white space) anywhere in a CSV file
    do not change what it loads. *)
Theorem parseCSV_blank_lines (pre post : list str) (blank : str) :
  Csv.plainLines (pre ++ blank :: post) = true -> Csv.trim blank = [] ->
  Csv.parseCSV (Csv.joinLines [10%Z] (pre ++ blank :: post))
  = Csv.parseCSV (Csv.joinLines [10%Z] (pre ++ post)).
Proof.
  intros Hp Hb.
  assert (Hp' : Csv.plainLines (pre ++ post) = true).
  { unfold Csv.plainLines in *. rewrite forallb_app in *. simpl in Hp.
    apply andb_true_iff in Hp as [H1 H2]. apply andb_true_iff in H2 as [_ H2].
    now rewrite H1, H2. }
  assert (Hrows : Csv.csvRows (Csv.joinLines [10%Z] (pre ++ blank :: post))
                  = Csv.csvRows (Csv.joinLines [10%Z] (pre ++ post))).
  { rewrite !CsvProofs.csvRows_join by auto.
    rewrite !filter_app. simpl. rewrite Hb. reflexivity. }
  unfold Csv.parseCSV. rewrite Hrows. reflexivity.
Qed.

(** ** Witnesses of the properties of the callers *)

Lemma processInChunks_map_witness :
  1 <= 3 /\ length [1; 2; 3; 4; 5; 6; 7] < 8 /\
  processInChunks (fun n => 2 * n) 8 [1; 2; 3; 4; 5; 6; 7] 3
  = Some [2; 4; 6; 8; 10; 12; 14].
Proof.
  split; [lia|split; [simpl; lia|]].
  apply (processInChunks_map (fun n => 2 * n) [1; 2; 3; 4; 5; 6; 7] 3 8);
    simpl; lia.
Defined.

Lemma processInChunks_zero_diverges_witness :
  [js "a.pdf"] <> [] /\ processInChunks (fun s : str => length s) 100 [js "a.pdf"] 0 = None.
Proof.
  split; [discriminate|].
  apply (processInChunks_zero_diverges (fun s : str => length s) [js "a.pdf"] 100).
  discriminate.
Defined.


Lemma parseCSV_groups_rows_witness :
  Csv.parseCSV demoCsvText
  = Csv.Parsed (Csv.buildDatabase (Csv.csvData (Csv.csvRows demoCsvText))) /\
  Master.get (Csv.buildDatabase (Csv.csvData (Csv.csvRows demoCsvText)))
    (js "30-71234567-8")
  = Some {| Csv.supplierCode := Some (js "PR1");
            Csv.supplierName := Some (js "Fruit SA");
            Csv.products :=
              [{| Csv.productCode := Some (js "P001"); Csv.productName := Some (js "Apples") |};
               {| Csv.productCode := Some (js "P002"); Csv.productName := Some (js "Pears") |}] |}.
Proof.
  assert (H : Csv.parseCSV demoCsvText
              = Csv.Parsed (Csv.buildDatabase (Csv.csvData (Csv.csvRows demoCsvText))))
    by (vm_compute; reflexivity).
  split; [exact H|].
  destruct (parseCSV_groups_rows demoCsvText _ H) as (_ & _ & _ & Hg).
  rewrite Hg. vm_compute. reflexivity.
Defined.

Lemma parseCSV_line_endings_witness :
  Csv.plainLines demoCsvLines = true /\
  Csv.parseCSV (Csv.joinLines [13%Z; 10%Z] demoCsvLines)
  = Csv.parseCSV (Csv.joinLines [10%Z] demoCsvLines).
Proof.
  split; [vm_compute; reflexivity|].
  apply (parseCSV_line_endings demoCsvLines). vm_compute. reflexivity.
Defined.

Lemma parseCSV_blank_lines_witness :
  Csv.plainLines (firstn 2 demoCsvLines ++ js "  " :: skipn 3 demoCsvLines) = true /\
  Csv.trim (js "  ") = [] /\
  Csv.parseCSV (Csv.joinLines [10%Z] (firstn 2 demoCsvLines ++ js "  " :: skipn 3 demoCsvLines))
  = Csv.parseCSV (Csv.joinLines [10%Z] (firstn 2 demoCsvLines ++ skipn 3 demoCsvLines)).
Proof.
  split; [vm_compute; reflexivity|split; [vm_compute; reflexivity|]].
  apply (parseCSV_blank_lines (firstn 2 demoCsvLines) (skipn 3 demoCsvLines) (js "  "));
    vm_compute; reflexivity.
Defined.

(** * Scenarios of the spec *)

Example lev_hello : levenshteinDistance (js "hello") (js "hello") = 0.
Proof. reflexivity. Qed.

Example lev_karin : levenshteinDistance (js "karin") (js "barin") = 1.
Proof. reflexivity. Qed.

Example lev_kitten : levenshteinDistance (js "kitten") (js "sitting") = 3.
Proof. reflexivity. Qed.

Example scenario5 :
  matchedWith (bestProduct "Delicius Apples" products) "P001" (15 # 16) = true.
Proof. vm_compute. reflexivity. Qed.

Example scenario7 :
  bestProduct "delicius apples" products = bestProduct "Delicius Apples" products.
Proof. vm_compute. reflexivity. Qed.
